(** * QuikConnector: a shallow embedding of
      pytrade/connector/quik/QuikConnector.py

    The connector owns one TCP socket, sends textual JSON requests and
    runs a blocking receive loop that splits every chunk on the literal
    token [message:], decodes each fragment and dispatches it to a
    handler.  Python text is modelled as a list of Unicode code points,
    the wire as a list of bytes, the object's fields as a record that is
    threaded through a state-and-exception monad. *)

From Stdlib Require Import Ascii String DecimalString PrimFloat.
From Stdlib.Strings Require Import Byte.
From Stdlib Require Import List Bool Arith ZArith NArith Lia.
Import ListNotations.

Set Implicit Arguments.
Set Warnings "-register-all,-notation-for-abbreviation".

(* ================================================================== *)
(** ** Text and bytes *)

(** A Python [str]: a sequence of code points. *)
Notation pystr := (list N) (only parsing).

(** A Python [bytes] object. *)
Notation bytes := (list byte) (only parsing).

(** ASCII literals of the source, as code points. *)
Definition lit (s : string) : pystr :=
  map N_of_ascii (list_ascii_of_string s).

Fixpoint pystr_eqb (a b : pystr) : bool :=
  match a, b with
  | [], [] => true
  | x :: a', y :: b' => N.eqb x y && pystr_eqb a' b'
  | _, _ => false
  end.

(** [str(n)] and ['%d' % n] for an integer. *)
Definition str_of_Z (z : Z) : pystr :=
  lit (NilZero.string_of_int (Z.to_int z)).

(** *** UTF-8, used by [bytes(msg, 'UTF-8')] *)

Definition byte_of (n : N) : byte :=
  match Byte.of_N (n mod 256) with
  | Some b => b
  | None => x00
  end.

(** One code point; [None] is Python's UnicodeEncodeError (lone
    surrogates and values that are not code points). *)
Definition utf8_char (c : N) : option bytes :=
  if (c <? 128)%N then Some [byte_of c]
  else if (c <? 2048)%N then
    Some [byte_of (192 + c / 64); byte_of (128 + c mod 64)]
  else if (c <? 55296)%N || ((57343 <? c)%N && (c <? 65536)%N) then
    Some [byte_of (224 + c / 4096);
          byte_of (128 + (c / 64) mod 64);
          byte_of (128 + c mod 64)]
  else if (65535 <? c)%N && (c <? 1114112)%N then
    Some [byte_of (240 + c / 262144);
          byte_of (128 + (c / 4096) mod 64);
          byte_of (128 + (c / 64) mod 64);
          byte_of (128 + c mod 64)]
  else None.

Fixpoint utf8_encode (s : pystr) : option bytes :=
  match s with
  | [] => Some []
  | c :: s' =>
      match utf8_char c, utf8_encode s' with
      | Some b, Some bs => Some (b ++ bs)
      | _, _ => None
      end
  end.

(** *** Code page 1251, the codec Python finds under the name ['1251'] *)

(** Bytes 0x80 .. 0xBF; 0x98 is unassigned. *)
Definition cp1251_high : list (option N) :=
  map (fun n : N => if (n =? 0)%N then None else Some n)
  [ 1026; 1027; 8218; 1107; 8222; 8230; 8224; 8225;
    8364; 8240; 1033; 8249; 1034; 1036; 1035; 1039;
    1106; 8216; 8217; 8220; 8221; 8226; 8211; 8212;
    0;    8482; 1113; 8250; 1114; 1116; 1115; 1119;
    160;  1038; 1118; 1032; 164;  1168; 166;  167;
    1025; 169;  1028; 171;  172;  173;  174;  1031;
    176;  177;  1030; 1110; 1169; 181;  182;  183;
    1105; 8470; 1108; 187;  1112; 1029; 1109; 1111 ]%N.

Definition cp1251_char (b : byte) : option N :=
  let n := Byte.to_N b in
  if (n <? 128)%N then Some n
  else if (n <? 192)%N then nth (N.to_nat (n - 128)) cp1251_high None
  else Some (1040 + (n - 192))%N.

(** [data.decode('1251')]; [None] is UnicodeDecodeError. *)
Fixpoint cp1251_decode (d : bytes) : option pystr :=
  match d with
  | [] => Some []
  | b :: d' =>
      match cp1251_char b, cp1251_decode d' with
      | Some c, Some s => Some (c :: s)
      | _, _ => None
      end
  end.

(** The inverse direction, [s.encode('1251')]: the byte whose character
    is [c], if there is one. *)
Definition all_bytes : list byte :=
  map byte_of (map N.of_nat (seq 0 256)).

Definition cp1251_encode_char (c : N) : option byte :=
  find (fun b => match cp1251_char b with
                 | Some c' => N.eqb c c'
                 | None => false
                 end) all_bytes.

Fixpoint cp1251_encode (s : pystr) : option bytes :=
  match s with
  | [] => Some []
  | c :: s' =>
      match cp1251_encode_char c, cp1251_encode s' with
      | Some b, Some bs => Some (b :: bs)
      | _, _ => None
      end
  end.

(** *** [str.split(sep)] *)

Fixpoint prefixb (p s : pystr) : bool :=
  match p, s with
  | [], _ => true
  | x :: p', y :: s' => N.eqb x y && prefixb p' s'
  | _ :: _, [] => false
  end.

(** The leftmost occurrence of [sep]: the text before it and the text
    after it. *)
Fixpoint partition_at (sep s : pystr) : option (pystr * pystr) :=
  if prefixb sep s then Some ([], skipn (length sep) s)
  else match s with
       | [] => None
       | c :: s' =>
           match partition_at sep s' with
           | Some (b, a) => Some (c :: b, a)
           | None => None
           end
       end.

Fixpoint split_fuel (n : nat) (sep s : pystr) : list pystr :=
  match n with
  | O => [s]
  | S n' =>
      match partition_at sep s with
      | None => [s]
      | Some (b, a) => b :: split_fuel n' sep a
      end
  end.

(** [s.split(sep)] for a non-empty [sep]: every cut removes at least one
    character, so [length s] cuts are enough. *)
Definition split (sep s : pystr) : list pystr :=
  split_fuel (length s) sep s.

(** [sep.join(items)] *)
Fixpoint join (sep : pystr) (items : list pystr) : pystr :=
  match items with
  | [] => []
  | [x] => x
  | x :: rest => x ++ sep ++ join sep rest
  end.

Definition contains (sep s : pystr) : bool :=
  match partition_at sep s with
  | Some _ => true
  | None => false
  end.

(* ================================================================== *)
(** ** Decoded JSON *)

(** What [json.loads] returns: [None], [bool], [int], [float], [str],
    [list] and [dict] with string keys. *)
Inductive json : Type :=
| JNull
| JBool (b : bool)
| JInt (z : Z)
| JFloat (f : float)
| JStr (s : pystr)
| JArr (l : list json)
| JObj (d : list (pystr * json)).

(** Truth value of an object, as [if x] and [not x] take it. *)
Definition truthy (v : json) : bool :=
  match v with
  | JNull => false
  | JBool b => b
  | JInt z => negb (Z.eqb z 0)
  | JFloat f => negb (PrimFloat.eqb f 0%float)
  | JStr s => match s with [] => false | _ => true end
  | JArr l => match l with [] => false | _ => true end
  | JObj d => match d with [] => false | _ => true end
  end.

Fixpoint assoc_get {V : Type} (k : pystr) (d : list (pystr * V)) : option V :=
  match d with
  | [] => None
  | (k', v) :: d' => if pystr_eqb k k' then Some v else assoc_get k d'
  end.

(** *** The [%] operator on the templates of the source

    The templates of the source are full of double quotes; they are
    written here with a backquote in their place, and [tmpl] turns each
    backquote (96) into a double quote (34).  No template of the source
    holds a backquote of its own. *)
Definition tmpl (s : string) : pystr :=
  map (fun c : N => if (c =? 96)%N then 34%N else c) (lit s).

(** [t % args] where every conversion is [%s] or [%d] and every
    argument is already text ([str(n)] for an integer).  One pass over
    the template: substituted text is not scanned again. *)
Fixpoint format (t : pystr) (args : list pystr) : pystr :=
  match t with
  | [] => []
  | c :: t' =>
      match t' with
      | d :: t'' =>
          if (c =? 37)%N && ((d =? 115)%N || (d =? 100)%N) then
            match args with
            | a :: args' => a ++ format t'' args'
            | [] => c :: format t' args
            end
          else c :: format t' args
      | [] => [c]
      end
  end.

(* ================================================================== *)
(** ** The connector object *)

(** [class Status(Enum)] *)
Inductive Status : Type := DISCONNECTED | CONNECTING | CONNECTED.

Definition Status_eqb (a b : Status) : bool :=
  match a, b with
  | DISCONNECTED, DISCONNECTED => true
  | CONNECTING, CONNECTING => true
  | CONNECTED, CONNECTED => true
  | _, _ => false
  end.

(** A [socket.socket] object: whether [connect] succeeded on it, whether
    [close] was called on it, and what [sendall] wrote to it. *)
Record socket : Type := mkSocket {
  connected : bool;
  closed : bool;
  sent : list bytes
}.

(** A subscriber's feed callback is an opaque function of the caller;
    it is known by a number and its invocations are recorded. *)
Definition callback := nat.

(** The bound methods stored in [self._callbacks]. *)
Inductive handler : Type :=
| H_on_auth
| H_on_create_datasource
| H_callback.

Inductive level : Type := DEBUG | INFO | EXCEPTION.

(** An argument of a log line that the model does not render. *)
Inductive logarg : Type :=
| AStr (s : pystr)
| AJson (v : json)
| ABytes (b : bytes).

(** What the object does that can be observed from outside, oldest
    first.  [Dispatch] marks the call [callback(msg)] of the receive
    loop, and the first field of [FeedCall] is the value of
    [self.status] at the moment of the call; both are bookkeeping of the
    model, the source records neither. *)
Inductive event : Type :=
| Log (l : level) (fmt : pystr) (args : list logarg)
| Print (text : pystr)
| Dispatch (h : handler) (msg : json)
| FeedCall (at_status : Status) (cb : callback)
           (class_code sec_code price qty : json).

Record QuikConnector : Type := mkConnector {
  _host : pystr;
  _port : Z;
  _passwd : pystr;
  _sock : option socket;
  _account : pystr;
  _last_trans_id : Z;
  status : Status;
  _feed_callbacks : list ((pystr * pystr) * callback);
  trace : list event
}.

(** [__init__] *)
Definition init (host : pystr) (port : Z) (passwd account : pystr)
  : QuikConnector :=
  {| _host := host; _port := port; _passwd := passwd; _sock := None;
     _account := account; _last_trans_id := 0;
     status := DISCONNECTED; _feed_callbacks := []; trace := [] |}.

Definition set_sock (v : option socket) (c : QuikConnector) :=
  {| _host := _host c; _port := _port c; _passwd := _passwd c; _sock := v;
     _account := _account c; _last_trans_id := _last_trans_id c;
     status := status c; _feed_callbacks := _feed_callbacks c;
     trace := trace c |}.

Definition set_last_trans_id (v : Z) (c : QuikConnector) :=
  {| _host := _host c; _port := _port c; _passwd := _passwd c;
     _sock := _sock c; _account := _account c; _last_trans_id := v;
     status := status c; _feed_callbacks := _feed_callbacks c;
     trace := trace c |}.

Definition set_status (v : Status) (c : QuikConnector) :=
  {| _host := _host c; _port := _port c; _passwd := _passwd c;
     _sock := _sock c; _account := _account c;
     _last_trans_id := _last_trans_id c;
     status := v; _feed_callbacks := _feed_callbacks c;
     trace := trace c |}.

Definition set_feed_callbacks (v : list ((pystr * pystr) * callback))
  (c : QuikConnector) :=
  {| _host := _host c; _port := _port c; _passwd := _passwd c;
     _sock := _sock c; _account := _account c;
     _last_trans_id := _last_trans_id c;
     status := status c; _feed_callbacks := v; trace := trace c |}.

Definition add_event (e : event) (c : QuikConnector) :=
  {| _host := _host c; _port := _port c; _passwd := _passwd c;
     _sock := _sock c; _account := _account c;
     _last_trans_id := _last_trans_id c;
     status := status c; _feed_callbacks := _feed_callbacks c;
     trace := trace c ++ [e] |}.

(* ================================================================== *)
(** ** Methods run in a state-and-exception monad *)

Inductive exn : Type :=
| ConnectionError (msg : pystr)
| ConnectionRefusedError
| OSError
| AttributeError
| KeyError
| TypeError
| IndexError
| UnicodeEncodeError
| RecursionError
| ValueError.

Inductive result (A : Type) : Type :=
| Ok (a : A)
| Raise (e : exn).
Arguments Raise {A} e.

(** A method body: from the object before the call to the object after
    it, with a value or the exception that left the body. *)
Definition M (A : Type) : Type := QuikConnector -> QuikConnector * result A.

Definition ret {A} (a : A) : M A := fun c => (c, Ok a).
Definition raise {A} (e : exn) : M A := fun c => (c, Raise e).
Definition bind {A B} (m : M A) (k : A -> M B) : M B :=
  fun c => match m c with
           | (c', Ok a) => k a c'
           | (c', Raise e) => (c', Raise e)
           end.
Definition gets {A} (f : QuikConnector -> A) : M A := fun c => (c, Ok (f c)).
Definition modify (f : QuikConnector -> QuikConnector) : M unit :=
  fun c => (f c, Ok tt).
Definition lift {A} (r : result A) : M A := fun c => (c, r).

Declare Scope py_scope.
Delimit Scope py_scope with py.
Notation "x <- m ;; k" := (bind m (fun x => k))
  (at level 61, m at next level, right associativity) : py_scope.
Notation "m ;; k" := (bind m (fun _ => k))
  (at level 61, right associativity) : py_scope.
Open Scope py_scope.

Definition log (l : level) (fmt : pystr) (args : list logarg) : M unit :=
  modify (add_event (Log l fmt args)).

(** [for x in xs: body(x)] *)
Fixpoint for_each {A} (xs : list A) (body : A -> M unit) : M unit :=
  match xs with
  | [] => ret tt
  | x :: xs' => body x ;; for_each xs' body
  end.

(** *** Subscripting and hashing decoded JSON *)

(** [v[key]] for a string key. *)
Definition getitem (v : json) (key : pystr) : result json :=
  match v with
  | JObj d => match assoc_get key d with
              | Some x => Ok x
              | None => Raise KeyError
              end
  | _ => Raise TypeError
  end.

(** [v[0]] *)
Definition getitem0 (v : json) : result json :=
  match v with
  | JArr (x :: _) => Ok x
  | JArr [] => Raise IndexError
  | JStr (c :: _) => Ok (JStr [c])
  | JStr [] => Raise IndexError
  | JObj _ => Raise KeyError
  | _ => Raise TypeError
  end.

(** Lists and dicts cannot be dictionary keys. *)
Definition hashable (v : json) : bool :=
  match v with
  | JArr _ | JObj _ => false
  | _ => true
  end.

(** *** Class attributes *)

Definition _MSG_ID_AUTH : pystr := lit "msg_auth".
Definition _MSG_ID_CREATE_DATASOURCE : pystr := lit "msg_create_ds".
Definition _MSG_DELIMITER : pystr := lit "message:".

(** [self._callbacks.get(key)]: the table built in [__init__]. *)
Definition callbacks_get (key : json) : result (option handler) :=
  match key with
  | JStr s =>
      if pystr_eqb s _MSG_ID_AUTH then Ok (Some H_on_auth)
      else if pystr_eqb s _MSG_ID_CREATE_DATASOURCE
           then Ok (Some H_on_create_datasource)
      else if pystr_eqb s (lit "callback") then Ok (Some H_callback)
      else Ok None
  | _ => if hashable key then Ok None else Raise TypeError
  end.

(** *** The subscription registry, a dict in insertion order *)

Definition key_eqb (a b : pystr * pystr) : bool :=
  pystr_eqb (fst a) (fst b) && pystr_eqb (snd a) (snd b).

(** [d[k] = v]: an existing key keeps its place. *)
Fixpoint dict_set {V} (k : pystr * pystr) (v : V)
  (d : list ((pystr * pystr) * V)) : list ((pystr * pystr) * V) :=
  match d with
  | [] => [(k, v)]
  | (k', v') :: d' =>
      if key_eqb k k' then (k', v) :: d' else (k', v') :: dict_set k v d'
  end.

Fixpoint dict_get {V} (k : pystr * pystr)
  (d : list ((pystr * pystr) * V)) : option V :=
  match d with
  | [] => None
  | (k', v) :: d' => if key_eqb k k' then Some v else dict_get k d'
  end.

(** [self._feed_callbacks.get((a, b))] for decoded values [a] and [b].
    The keys of the registry are pairs of strings, so only a pair of
    strings can be found. *)
Definition feed_get (a b : json) (d : list ((pystr * pystr) * callback))
  : result (option callback) :=
  if hashable a && hashable b then
    match a, b with
    | JStr x, JStr y => Ok (dict_get (x, y) d)
    | _, _ => Ok None
    end
  else Raise TypeError.

(** *** Sending *)

(** [self._sock.sendall(bytes(msg, 'UTF-8'))]: the attribute lookup on
    [None] fails first, then the encoding, then the write. *)
Definition send_text (msg : pystr) : M unit :=
  s <- gets _sock ;;
  match s with
  | None => raise AttributeError
  | Some sk =>
      match utf8_encode msg with
      | None => raise UnicodeEncodeError
      | Some data =>
          if closed sk || negb (connected sk) then raise OSError
          else modify (set_sock (Some (mkSocket (connected sk) (closed sk)
                                                (sent sk ++ [data]))))
      end
  end.

(** [_connect_sock]; [connect_ok] says whether the peer accepts. *)
Definition _connect_sock (connect_ok : bool) : M unit :=
  modify (set_status CONNECTING) ;;
  host <- gets _host ;;
  port <- gets _port ;;
  log INFO (lit "Connecting to " ++ host ++ lit ":" ++ str_of_Z port) [] ;;
  modify (set_sock (Some (mkSocket false false []))) ;;
  (if connect_ok
   then modify (set_sock (Some (mkSocket true false [])))
   else raise ConnectionRefusedError) ;;
  log INFO (lit "Connected to " ++ host ++ lit ":" ++ str_of_Z port) [].

Definition auth_msg (passwd : pystr) : pystr :=
  format (tmpl "{ `id`: `%s` , `method`: `checkSecurity`, `args`: [`%s`] }")
         [_MSG_ID_AUTH; passwd].

(** [_auth] *)
Definition _auth : M unit :=
  passwd <- gets _passwd ;;
  let msg := auth_msg passwd in
  log DEBUG (lit "Sending message: %s") [AStr msg] ;;
  send_text msg.

(** [_on_auth] *)
Definition _on_auth (msg : json) : M unit :=
  r <- lift (getitem msg (lit "result")) ;;
  auth_result <- lift (getitem0 r) ;;
  if negb (truthy auth_result)
  then raise (ConnectionError (lit "Quik LUA authentication failed"))
  else modify (set_status CONNECTED) ;;
       log INFO (lit "Connected") [].

Definition create_datasource_msg (sec_name sec_code : pystr) : pystr :=
  let msg_id := format (lit "%s_%s_%s")
                       [_MSG_ID_CREATE_DATASOURCE; sec_name; sec_code] in
  format (tmpl "%s{`id`: `%s`,`method`: `CreateDataSource`,`args`: [`%s`, `%s`, `INTERVAL_TICK`]}")
         [_MSG_DELIMITER; msg_id; sec_name; sec_code].

(** [_create_datasource] *)
Definition _create_datasource (sec_name sec_code : pystr) : M unit :=
  let msg := create_datasource_msg sec_name sec_code in
  log INFO (lit "Sending msg: %s") [AStr msg] ;;
  send_text msg.

(** [subscribe] *)
Definition subscribe (sec_name sec_code : pystr) (feed_callback : callback)
  : M unit :=
  modify (fun c => set_feed_callbacks
            (dict_set (sec_name, sec_code) feed_callback (_feed_callbacks c))
            c) ;;
  st <- gets status ;;
  if Status_eqb st CONNECTED
  then _create_datasource sec_name sec_code
  else ret tt.

(** [_create_subscribers_datasources] *)
Definition _create_subscribers_datasources : M unit :=
  items <- gets _feed_callbacks ;;
  for_each items (fun '((sec_code, sec_name), _) =>
                    _create_datasource sec_code sec_name).

(** [_on_create_datasource] *)
Definition _on_create_datasource (msg : json) : M unit :=
  r <- lift (getitem msg (lit "result")) ;;
  datasource_id <- lift (getitem0 r) ;;
  log INFO (lit "Created datasource id: %s") [AJson datasource_id].

(** [_on_trans_reply]; the first log line has the object itself as its
    message. *)
Definition _on_trans_reply (msg : json) : M unit :=
  r <- lift (getitem msg (lit "result")) ;;
  match r with
  | JObj _ =>
      r' <- lift (getitem msg (lit "result")) ;;
      m <- lift (getitem r' (lit "result_msg")) ;;
      log INFO (lit "%s") [AJson m]
  | _ =>
      r' <- lift (getitem msg (lit "result")) ;;
      log INFO (lit "Result: %s") [AJson r']
  end.

Definition is_str (v : json) (s : pystr) : bool :=
  match v with
  | JStr x => pystr_eqb x s
  | _ => false
  end.

(** [_on_all_trade] *)
Definition _on_all_trade (msg : json) : M unit :=
  name <- lift (getitem msg (lit "callback_name")) ;;
  if negb (is_str name (lit "OnAllTrade")) then ret tt
  else
    r <- lift (getitem msg (lit "result")) ;;
    class_code <- lift (getitem r (lit "class_code")) ;;
    sec_name <- lift (getitem r (lit "sec_code")) ;;
    reg <- gets _feed_callbacks ;;
    cb <- lift (feed_get class_code sec_name reg) ;;
    match cb with
    | Some f =>
        log DEBUG (lit "Feed callback found for class_code=%s, sec_code=%s")
            [AJson class_code; AJson sec_name] ;;
        price <- lift (getitem r (lit "price")) ;;
        qty <- lift (getitem r (lit "qty")) ;;
        modify (fun c => add_event
                  (FeedCall (status c) f class_code sec_name price qty) c)
    | None => ret tt
    end.

(** [_callback]: the [switcher] dict and its [get]. *)
Definition _callback (msg : json) : M unit :=
  name <- lift (getitem msg (lit "callback_name")) ;;
  if negb (hashable name) then raise TypeError
  else if is_str name (lit "OnAllTrade") then _on_all_trade msg
  else if is_str name (lit "OnTransReply") then _on_trans_reply msg
  else ret tt.

Definition trans_text (account : pystr) (id : Z)
  (class_code sec_code : pystr) (quantity : Z) : pystr :=
  format (lit "ACCOUNT=%s\nCLIENT_CODE=%s\nTYPE=L\nTRANS_ID=%d\nCLASSCODE=%s\nSECCODE=%s\nACTION=NEW_ORDER\nOPERATION=B\nPRICE=0\nQUANTITY=%d")
         [account; account; str_of_Z id; class_code; sec_code;
          str_of_Z quantity].

Definition order_msg (account : pystr) (id : Z)
  (class_code sec_code : pystr) (quantity : Z) : pystr :=
  format (tmpl "%s{`id`: `%s`,`method`: `sendTransaction`,`args`: [`%s`]}")
         [_MSG_DELIMITER; str_of_Z id;
          trans_text account id class_code sec_code quantity].

Definition trans_reply_msg (id : Z) : pystr :=
  let trans_reply_id := str_of_Z id ++ lit "_reply" in
  format (tmpl "%s{`id`: `%s`,`method`: `OnTransReply`,`args`: [`%s`]}")
         [_MSG_DELIMITER; trans_reply_id; str_of_Z id].

(** [_send_order] *)
Definition _send_order (class_code sec_code : pystr) (quantity : Z)
  : M unit :=
  modify (fun c => set_last_trans_id (_last_trans_id c + 1) c) ;;
  account <- gets _account ;;
  id <- gets _last_trans_id ;;
  let m := order_msg account id class_code sec_code quantity in
  log INFO (lit "Sending order %s") [AStr m] ;;
  send_text m ;;
  send_text (trans_reply_msg id).

(* ================================================================== *)
(** ** The receive loop *)

Definition call_handler (h : handler) (msg : json) : M unit :=
  match h with
  | H_on_auth => _on_auth msg
  | H_on_create_datasource => _on_create_datasource msg
  | H_callback => _callback msg
  end.

(** The ways in which [json.loads(text)] ends: with the decoded value,
    with [json.decoder.JSONDecodeError] on text that is not JSON, or
    with another exception, as RecursionError on text nested too deep
    and plain ValueError on an integer with too many digits. *)
Inductive loads_outcome : Type :=
| Decoded (v : json)
| JSONDecodeError
| LoadsRaises (e : exn).

Section Run.

(** [json.loads] of the standard library, on a fragment of text. *)
Variable json_loads : pystr -> loads_outcome.

(** The body of [for data_item in data_items]. *)
Definition process_item (data item : pystr) : M unit :=
  match item with
  | [] => ret tt
  | _ :: _ =>
      match json_loads item with
      | JSONDecodeError =>
          log EXCEPTION (lit "Bad message packet %s, message %s")
              [AStr data; AStr item]
      | LoadsRaises e => raise e
      | Decoded msg =>
          id <- lift (getitem msg (lit "id")) ;;
          cb <- lift (callbacks_get id) ;;
          match cb with
          | Some h => modify (add_event (Dispatch h msg)) ;;
                      call_handler h msg
          | None => ret tt
          end
      end
  end.

(** The body of [while True], for the chunk that [recv] returned. *)
Definition process_chunk (data : bytes) : M unit :=
  match cp1251_decode data with
  | None => log EXCEPTION (lit "Bad message packet %s") [ABytes data]
  | Some text =>
      modify (add_event (Print text)) ;;
      for_each (split _MSG_DELIMITER text) (process_item text)
  end.

(** [run]: [chunks] are the successive results of [recv]; after the last
    of them the blocked [recv] is interrupted from the keyboard.  An
    exception other than that interrupt leaves [run] at once. *)
Definition run (connect_ok : bool) (chunks : list bytes) : M unit :=
  _connect_sock connect_ok ;;
  _auth ;;
  _create_subscribers_datasources ;;
  for_each chunks process_chunk ;;
  log INFO (lit "Interrupted by user") [] ;;
  modify (set_status DISCONNECTED) ;;
  modify (fun c => match _sock c with
                   | Some s => set_sock (Some (mkSocket (connected s) true
                                                        (sent s))) c
                   | None => c
                   end) ;;
  log INFO (lit "Disconnected") [].

End Run.

(** API-level use of one object: the calls a client makes, one after
    the other.  An exception that leaves a call is the caller's to
    handle; the object keeps the state the call left it in. *)
Inductive api_call : Type :=
| CallSubscribe (sec_name sec_code : pystr) (feed_callback : callback)
| CallSendOrder (class_code sec_code : pystr) (quantity : Z)
| CallRun (connect_ok : bool) (chunks : list bytes).

Definition exec_call (json_loads : pystr -> loads_outcome)
  (call : api_call) : M unit :=
  match call with
  | CallSubscribe n k f => subscribe n k f
  | CallSendOrder a b q => _send_order a b q
  | CallRun ok chunks => run json_loads ok chunks
  end.

Definition exec_calls (json_loads : pystr -> loads_outcome)
  (calls : list api_call) (c : QuikConnector) : QuikConnector :=
  fold_left (fun c call => fst (exec_call json_loads call c)) calls c.

(** *** Reading the record of events *)

Definition dispatches (t : list event) : list (handler * json) :=
  flat_map (fun e => match e with
                     | Dispatch h m => [(h, m)]
                     | _ => []
                     end) t.

Definition feed_calls (t : list event) : list event :=
  filter (fun e => match e with FeedCall _ _ _ _ _ _ => true | _ => false end)
         t.

Definition sock_open (c : QuikConnector) : bool :=
  match _sock c with
  | Some s => negb (closed s)
  | None => false
  end.

Definition sock_sent (c : QuikConnector) : list bytes :=
  match _sock c with
  | Some s => sent s
  | None => []
  end.

(** A decoder given by a finite table, for running the model on
    concrete chunks. *)
Definition loads_table (tbl : list (pystr * json)) (s : pystr)
  : loads_outcome :=
  match assoc_get s tbl with
  | Some v => Decoded v
  | None => JSONDecodeError
  end.

Definition auth_failed : exn :=
  ConnectionError (lit "Quik LUA authentication failed").

(** *** Concrete messages

    The texts below are what the terminal sends; next to each is the
    value [json.loads] gives for it. *)

Definition auth_ok_text : pystr := tmpl "{`id`: `msg_auth`, `result`: [true]}".
Definition auth_ok_msg : json :=
  JObj [(lit "id", JStr (lit "msg_auth")); (lit "result", JArr [JBool true])].

Definition auth_fail_text : pystr :=
  tmpl "{`id`: `msg_auth`, `result`: [false]}".
Definition auth_fail_msg : json :=
  JObj [(lit "id", JStr (lit "msg_auth")); (lit "result", JArr [JBool false])].

Definition tick_text : pystr :=
  tmpl "{`id`:`callback`,`callback_name`:`OnAllTrade`,`result`:{`class_code`:`SPBFUT`,`sec_code`:`RIU8`,`price`:100.5,`qty`:2}}".
Definition tick_result : json :=
  JObj [(lit "class_code", JStr (lit "SPBFUT"));
        (lit "sec_code", JStr (lit "RIU8"));
        (lit "price", JFloat 100.5%float);
        (lit "qty", JInt 2)].
Definition tick_msg : json :=
  JObj [(lit "id", JStr (lit "callback"));
        (lit "callback_name", JStr (lit "OnAllTrade"));
        (lit "result", tick_result)].


Definition demo_loads : pystr -> loads_outcome :=
  loads_table [(auth_ok_text, auth_ok_msg);
               (auth_fail_text, auth_fail_msg);
               (tick_text, tick_msg)].

(** A fresh object with the default arguments of [__init__]. *)
Definition fresh : QuikConnector :=
  init (lit "192.168.1.104") 1111 (lit "1") (lit "SPBFUT00998").

(** The same object after [subscribe('SPBFUT', 'RIU8', cb)] with the
    callback numbered 7. *)
Definition subscribed : QuikConnector :=
  fst (subscribe (lit "SPBFUT") (lit "RIU8") 7%nat fresh).

(** ASCII text as the bytes that carry it. *)
Definition ascii_bytes (s : pystr) : bytes := map byte_of s.

(** *** Well-formed batches *)

(** The handler that the receive loop finds for a fragment, with the
    decoded message, when the fragment decodes and carries an id that
    [self._callbacks] knows. *)
Definition decode_known (json_loads : pystr -> loads_outcome) (item : pystr)
  : option (handler * json) :=
  match json_loads item with
  | Decoded msg =>
      match getitem msg (lit "id") with
      | Ok id => match callbacks_get id with
                 | Ok (Some h) => Some (h, msg)
                 | _ => None
                 end
      | Raise _ => None
      end
  | _ => None
  end.

(** A fragment of a well-formed batch is empty or a message with a known
    id, and the delimiter does not occur inside it. *)
Definition fragment_ok (json_loads : pystr -> loads_outcome) (item : pystr)
  : Prop :=
  contains _MSG_DELIMITER item = false /\
  (item = [] \/ exists hm, decode_known json_loads item = Some hm).

(** The messages of a batch, in stream order; empty fragments carry
    none. *)
Definition batch_messages (json_loads : pystr -> loads_outcome)
  (items : list pystr) : list (handler * json) :=
  flat_map (fun item => match item with
                        | [] => []
                        | _ :: _ => match decode_known json_loads item with
                                    | Some hm => [hm]
                                    | None => []
                                    end
                        end) items.

(** The statement that every well-formed batch of N messages gets N
    handler calls, whatever the handlers do. *)
Definition all_messages_dispatched (json_loads : pystr -> loads_outcome)
  : Prop :=
  forall (data : bytes) (items : list pystr) (c : QuikConnector),
    items <> [] ->
    cp1251_decode data = Some (join _MSG_DELIMITER items) ->
    Forall (fragment_ok json_loads) items ->
    dispatches (trace (fst (process_chunk json_loads data c)))
    = dispatches (trace c) ++ batch_messages json_loads items.

(* ================================================================== *)
(** * Properties *)

(** ** Relations that every step of a method keeps *)

Section Preservation.

Variable R : QuikConnector -> QuikConnector -> Prop.
Hypothesis R_refl : forall c, R c c.
Hypothesis R_trans : forall a b c, R a b -> R b c -> R a c.

(** Every run of [m] relates the object before to the object after,
    whether [m] returns or raises. *)
Definition preserves {A} (m : M A) : Prop :=
  forall c, R c (fst (m c)).

Lemma preserves_ret {A} (a : A) : preserves (ret a).
Proof. intro c. apply R_refl. Qed.

Lemma preserves_raise {A} (e : exn) : preserves (@raise A e).
Proof. intro c. apply R_refl. Qed.

Lemma preserves_lift {A} (r : result A) : preserves (lift r).
Proof. intro c. apply R_refl. Qed.

Lemma preserves_gets {A} (f : QuikConnector -> A) : preserves (gets f).
Proof. intro c. apply R_refl. Qed.

Lemma preserves_bind {A B} (m : M A) (k : A -> M B) :
  preserves m -> (forall a, preserves (k a)) -> preserves (bind m k).
Proof.
  intros Hm Hk c. unfold bind.
  specialize (Hm c). destruct (m c) as [c1 [a | e]]; simpl in *.
  - eapply R_trans; [exact Hm | apply Hk].
  - exact Hm.
Qed.

Lemma preserves_for_each {A} (xs : list A) (body : A -> M unit) :
  (forall x, preserves (body x)) -> preserves (for_each xs body).
Proof.
  intro Hb. induction xs as [| x xs IH]; simpl.
  - apply preserves_ret.
  - apply preserves_bind; [apply Hb | intros _; exact IH].
Qed.

Lemma preserves_modify (f : QuikConnector -> QuikConnector) :
  (forall c, R c (f c)) -> preserves (modify f).
Proof. intros H c. apply H. Qed.

(** The elementary updates that the methods below [run] perform. *)
Hypothesis R_log : forall l f a c, R c (add_event (Log l f a) c).
Hypothesis R_feed : forall c f a b p q,
  R c (add_event (FeedCall (status c) f a b p q) c).
Hypothesis R_connected : forall c, R c (set_status CONNECTED c).
Hypothesis R_write : forall c s data,
  _sock c = Some s ->
  R c (set_sock (Some (mkSocket (connected s) (closed s) (sent s ++ [data]))) c).
Hypothesis R_registry : forall c d, R c (set_feed_callbacks d c).
Hypothesis R_trans_id : forall c n, R c (set_last_trans_id n c).

Lemma preserves_log l f a : preserves (log l f a).
Proof. apply preserves_modify. intro c. apply R_log. Qed.

Lemma preserves_send_text msg : preserves (send_text msg).
Proof.
  intro c. unfold send_text, bind, gets, raise, modify.
  destruct (_sock c) as [s |] eqn:Hs; simpl; [| apply R_refl].
  destruct (utf8_encode msg); simpl; [| apply R_refl].
  destruct (closed s || negb (connected s)); simpl;
    [apply R_refl | now apply R_write].
Qed.

Ltac step :=
  lazymatch goal with
  | |- preserves (log _ _ _) => apply preserves_log
  | |- preserves (send_text _) => apply preserves_send_text
  | |- preserves (ret _) => apply preserves_ret
  | |- preserves (raise _) => apply preserves_raise
  | |- preserves (lift _) => apply preserves_lift
  | |- preserves (gets _) => apply preserves_gets
  | |- preserves (modify _) => apply preserves_modify; intro
  | |- preserves (bind _ _) => apply preserves_bind; [| intro]
  | |- preserves (if ?x then _ else _) => destruct x
  | |- preserves (match ?x with _ => _ end) => destruct x
  end.

Lemma preserves_create_datasource a b : preserves (_create_datasource a b).
Proof. unfold _create_datasource. repeat step. Qed.

Lemma preserves_subscribe a b f : preserves (subscribe a b f).
Proof.
  unfold subscribe. repeat step.
  - apply R_registry.
  - apply preserves_create_datasource.
Qed.

Lemma preserves_replay : preserves _create_subscribers_datasources.
Proof.
  unfold _create_subscribers_datasources. step; [step |].
  apply preserves_for_each. intros [[x y] f].
  apply preserves_create_datasource.
Qed.

Lemma preserves_send_order a b q : preserves (_send_order a b q).
Proof. unfold _send_order. repeat step. apply R_trans_id. Qed.

Lemma preserves_on_auth msg : preserves (_on_auth msg).
Proof.
  unfold _on_auth. repeat step. apply R_connected.
Qed.

Lemma preserves_on_create_datasource msg :
  preserves (_on_create_datasource msg).
Proof. unfold _on_create_datasource. repeat step. Qed.

Lemma preserves_on_trans_reply msg : preserves (_on_trans_reply msg).
Proof.
  unfold _on_trans_reply. repeat step.
Qed.

Lemma preserves_on_all_trade msg : preserves (_on_all_trade msg).
Proof.
  unfold _on_all_trade. repeat step. apply R_feed.
Qed.

Lemma preserves_callback msg : preserves (_callback msg).
Proof.
  unfold _callback. repeat step.
  - apply preserves_on_all_trade.
  - apply preserves_on_trans_reply.
Qed.

Lemma preserves_call_handler h msg : preserves (call_handler h msg).
Proof.
  destruct h; simpl;
    [ apply preserves_on_auth | apply preserves_on_create_datasource
    | apply preserves_callback ].
Qed.

End Preservation.

(** An exception raised while a chunk is processed is not caught by
    [run]: it leaves [run] with the object as it was at the raise. *)
Lemma run_propagates json_loads chunks c0 c1 c2 e :
  (_connect_sock true ;; _auth ;; _create_subscribers_datasources) c0
    = (c1, Ok tt) ->
  for_each chunks (process_chunk json_loads) c1 = (c2, Raise e) ->
  run json_loads true chunks c0 = (c2, Raise e).
Proof.
  intros H0 H1. unfold run.
  unfold bind in H0 |- *.
  destruct (_connect_sock true c0) as [ca [[] | ea]]; [| discriminate].
  destruct (_auth ca) as [cb [[] | eb]]; [| discriminate].
  rewrite H0, H1. reflexivity.
Qed.

(* ================================================================== *)
(** ** The authentication response *)

(** C3.  When the auth-response handler gets a message whose
    [result[0]] is [false], it raises ConnectionError, the status is the
    one it was, and the receive loop's dispatch lets the exception
    through; when [result[0]] is [true] the handler returns and the
    status is CONNECTED. *)
Theorem on_auth_result json_loads (c : QuikConnector)
  (data item : pystr) (msg r : json) (b : bool) :
  item <> [] ->
  json_loads item = Decoded msg ->
  getitem msg (lit "id") = Ok (JStr _MSG_ID_AUTH) ->
  getitem msg (lit "result") = Ok r ->
  getitem0 r = Ok (JBool b) ->
  if b then
    _on_auth msg c
      = (add_event (Log INFO (lit "Connected") []) (set_status CONNECTED c),
         Ok tt)
    /\ status (fst (_on_auth msg c)) = CONNECTED
    /\ status (fst (process_item json_loads data item c)) = CONNECTED
  else
    _on_auth msg c = (c, Raise auth_failed)
    /\ snd (process_item json_loads data item c) = Raise auth_failed
    /\ status (fst (process_item json_loads data item c)) = status c.
Proof.
  intros Hne Hl Hid Hr H0.
  assert (Hh : _on_auth msg c
               = if b then (add_event (Log INFO (lit "Connected") [])
                                      (set_status CONNECTED c), Ok tt)
                 else (c, Raise auth_failed)).
  { unfold _on_auth, bind, lift. rewrite Hr, H0. destruct b; reflexivity. }
  assert (Hp : process_item json_loads data item c
               = _on_auth msg (add_event (Dispatch H_on_auth msg) c)).
  { destruct item as [| x item]; [congruence |].
    unfold process_item. rewrite Hl. unfold bind, lift. rewrite Hid.
    reflexivity. }
  destruct b.
  - rewrite Hh. repeat split. rewrite Hp.
    unfold _on_auth, bind, lift. rewrite Hr, H0. reflexivity.
  - rewrite Hh. repeat split; rewrite Hp;
      unfold _on_auth, bind, lift; rewrite Hr, H0; reflexivity.
Qed.

(** C10.  For an auth response whose [result[0]] is falsy the handler
    raises with the object untouched: every field is what it was. *)
Theorem on_auth_falsy_unchanged (c : QuikConnector) (msg r v : json) :
  getitem msg (lit "result") = Ok r ->
  getitem0 r = Ok v ->
  truthy v = false ->
  _on_auth msg c = (c, Raise auth_failed).
Proof.
  intros Hr H0 Hv. unfold _on_auth, bind, lift.
  rewrite Hr, H0, Hv. reflexivity.
Qed.

(* ================================================================== *)
(** ** Sequencing *)


(* ================================================================== *)
(** ** Framing: [split] undoes [join] *)

Lemma prefixb_true p s : prefixb p s = true <-> exists t, s = p ++ t.
Proof.
  revert s. induction p as [| x p IH]; intro s; simpl.
  - split; [intros _; now exists s | reflexivity].
  - destruct s as [| y s].
    + split; [discriminate | intros [t Ht]; discriminate].
    + rewrite Bool.andb_true_iff, N.eqb_eq, IH. split.
      * intros [-> [t ->]]. now exists t.
      * intros [t Ht]. injection Ht as -> ->. split; [reflexivity | now exists t].
Qed.

Lemma skipn_length_app (p t : pystr) : skipn (length p) (p ++ t) = t.
Proof. induction p; simpl; auto. Qed.

Lemma contains_cons sep c s :
  contains sep (c :: s) = false ->
  prefixb sep (c :: s) = false /\ contains sep s = false.
Proof.
  unfold contains. cbn [partition_at].
  destruct (prefixb sep (c :: s)); [discriminate |].
  destruct (partition_at sep s) as [[b a] |]; [discriminate | auto].
Qed.

Lemma delimiter_chars :
  _MSG_DELIMITER = [109; 101; 115; 115; 97; 103; 101; 58]%N.
Proof. reflexivity. Qed.

(** The delimiter ends with a colon and has no other colon, so an
    occurrence of it cannot begin inside a fragment and end inside the
    delimiter that follows the fragment. *)
Lemma no_straddling_match (f rest : pystr) :
  f <> [] ->
  prefixb _MSG_DELIMITER f = false ->
  prefixb _MSG_DELIMITER (f ++ _MSG_DELIMITER ++ rest) = false.
Proof.
  intros Hne Hf.
  destruct (prefixb _MSG_DELIMITER (f ++ _MSG_DELIMITER ++ rest)) eqn:E;
    [| reflexivity].
  exfalso. apply prefixb_true in E. destruct E as [t Ht].
  rewrite delimiter_chars in *.
  destruct f as [| c1 [| c2 [| c3 [| c4 [| c5 [| c6 [| c7 [| c8 f]]]]]]]];
    simpl in Ht; try congruence.
  injection Ht as -> -> -> -> -> -> -> -> _.
  simpl in Hf. discriminate.
Qed.

Lemma partition_at_fragment (f rest : pystr) :
  contains _MSG_DELIMITER f = false ->
  partition_at _MSG_DELIMITER (f ++ _MSG_DELIMITER ++ rest) = Some (f, rest).
Proof.
  induction f as [| c f IH]; intro Hc.
  - change ([] ++ _MSG_DELIMITER ++ rest) with (_MSG_DELIMITER ++ rest).
    assert (Hp : prefixb _MSG_DELIMITER (_MSG_DELIMITER ++ rest) = true)
      by (apply prefixb_true; now exists rest).
    destruct rest; reflexivity.
  - destruct (contains_cons _ _ _ Hc) as [Hp Hc'].
    assert (Hn : prefixb _MSG_DELIMITER ((c :: f) ++ _MSG_DELIMITER ++ rest)
                 = false)
      by (apply no_straddling_match; [discriminate | exact Hp]).
    change ((c :: f) ++ _MSG_DELIMITER ++ rest)
      with (c :: (f ++ _MSG_DELIMITER ++ rest)) in *.
    cbn [partition_at]. rewrite Hn, (IH Hc'). reflexivity.
Qed.

Lemma partition_at_none sep s :
  contains sep s = false -> partition_at sep s = None.
Proof. unfold contains. destruct (partition_at sep s); congruence. Qed.

Lemma split_fuel_join (items : list pystr) (n : nat) :
  items <> [] ->
  Forall (fun f => contains _MSG_DELIMITER f = false) items ->
  (length items <= S n)%nat ->
  split_fuel n _MSG_DELIMITER (join _MSG_DELIMITER items) = items.
Proof.
  revert n. induction items as [| x items IH]; intros n Hne Hall Hlen.
  - congruence.
  - inversion Hall as [| ? ? Hx Hrest]; subst.
    destruct items as [| y items].
    + simpl. destruct n; simpl; [reflexivity |].
      now rewrite (partition_at_none _ _ Hx).
    + destruct n as [| n]; [simpl in Hlen; lia |].
      change (join _MSG_DELIMITER (x :: y :: items))
        with (x ++ _MSG_DELIMITER ++ join _MSG_DELIMITER (y :: items)).
      cbn [split_fuel]. rewrite (partition_at_fragment _ _ Hx).
      f_equal. apply IH; [discriminate | exact Hrest | simpl in *; lia].
Qed.

(** What [data.split('message:')] returns for a batch of fragments
    joined by the delimiter, none of which holds the delimiter. *)
Lemma split_join (items : list pystr) :
  items <> [] ->
  Forall (fun f => contains _MSG_DELIMITER f = false) items ->
  split _MSG_DELIMITER (join _MSG_DELIMITER items) = items.
Proof.
  intros Hne Hall. unfold split. apply split_fuel_join; auto.
  rewrite delimiter_chars.
  change [109; 101; 115; 115; 97; 103; 101; 58]%N
    with (109 :: [101; 115; 115; 97; 103; 101; 58])%N.
  generalize [101; 115; 115; 97; 103; 101; 58]%N. intro sep.
  clear. induction items as [| x [| y items] IH]; simpl in *; try lia.
  rewrite length_app. simpl. rewrite length_app. lia.
Qed.

(* ================================================================== *)
(** ** Dispatch of a batch *)

Lemma dispatches_app t1 t2 :
  dispatches (t1 ++ t2) = dispatches t1 ++ dispatches t2.
Proof. unfold dispatches. apply flat_map_app. Qed.

(** No handler makes a dispatch of its own. *)
Lemma call_handler_dispatches h msg c :
  dispatches (trace (fst (call_handler h msg c))) = dispatches (trace c).
Proof.
  apply (@preserves_call_handler
           (fun a b => dispatches (trace b) = dispatches (trace a)));
    intros; simpl; rewrite ?dispatches_app, ?app_nil_r; congruence.
Qed.

Lemma process_item_known json_loads data item h msg c :
  item <> [] ->
  decode_known json_loads item = Some (h, msg) ->
  process_item json_loads data item c
  = call_handler h msg (add_event (Dispatch h msg) c).
Proof.
  intros Hne Hk. destruct item as [| x item]; [congruence |].
  unfold decode_known in Hk. unfold process_item.
  destruct (json_loads (x :: item)) as [m | | e]; try discriminate.
  unfold bind, lift.
  destruct (getitem m (lit "id")) as [id | e]; [| discriminate].
  destruct (callbacks_get id) as [[h' |] | e]; try discriminate.
  injection Hk as -> ->. reflexivity.
Qed.

Lemma for_each_dispatch json_loads data items :
  Forall (fragment_ok json_loads) items ->
  forall c,
  match for_each items (process_item json_loads data) c with
  | (c', Ok _) =>
      dispatches (trace c')
      = dispatches (trace c) ++ batch_messages json_loads items
  | (c', Raise e) =>
      exists done h msg rest c1,
        batch_messages json_loads items = done ++ (h, msg) :: rest /\
        dispatches (trace c') = dispatches (trace c) ++ done ++ [(h, msg)] /\
        call_handler h msg c1 = (c', Raise e)
  end.
Proof.
  induction 1 as [| item items [_ Hok] _ IH]; intro c.
  - simpl. now rewrite app_nil_r.
  - destruct item as [| x item].
    + change (for_each ([] :: items) (process_item json_loads data) c)
        with (for_each items (process_item json_loads data) c).
      apply IH.
    + destruct Hok as [Hnil | [[h msg] Hk]]; [discriminate |].
      assert (Hm : batch_messages json_loads ((x :: item) :: items)
                   = (h, msg) :: batch_messages json_loads items)
        by (unfold batch_messages; cbn [flat_map]; now rewrite Hk).
      rewrite Hm. cbn [for_each]. unfold bind.
      rewrite (@process_item_known json_loads data (x :: item) h msg c);
        [| discriminate | exact Hk].
      pose proof (call_handler_dispatches h msg
                    (add_event (Dispatch h msg) c)) as Hd.
      destruct (call_handler h msg (add_event (Dispatch h msg) c))
        as [c1 [[] | e]] eqn:Hcall; simpl in Hd;
        rewrite dispatches_app in Hd; simpl in Hd.
      * specialize (IH c1).
        destruct (for_each items (process_item json_loads data) c1)
          as [c2 [[] | e]].
        -- rewrite IH, Hd, <- app_assoc. reflexivity.
        -- destruct IH as (done & h' & msg' & rest & c0 & Hb & Ht & Hc).
           exists ((h, msg) :: done), h', msg', rest, c0.
           rewrite Hb, Ht, Hd, <- app_assoc. auto.
      * exists [], h, msg, (batch_messages json_loads items),
          (add_event (Dispatch h msg) c).
        rewrite Hd. auto.
Qed.

(** C1 (as amended).  For a chunk that is a delimiter-joined batch of
    fragments, each empty or a JSON message with a known id, the receive
    loop calls one handler per message in stream order and none for the
    empty fragments: all N calls when the chunk is processed to its end,
    and the calls up to and including the first handler that raises
    otherwise. *)
Theorem dispatch_in_order json_loads (data : bytes) (items : list pystr)
  (c : QuikConnector) :
  items <> [] ->
  cp1251_decode data = Some (join _MSG_DELIMITER items) ->
  Forall (fragment_ok json_loads) items ->
  match process_chunk json_loads data c with
  | (c', Ok _) =>
      dispatches (trace c')
      = dispatches (trace c) ++ batch_messages json_loads items
  | (c', Raise e) =>
      exists done h msg rest c1,
        batch_messages json_loads items = done ++ (h, msg) :: rest /\
        dispatches (trace c') = dispatches (trace c) ++ done ++ [(h, msg)] /\
        call_handler h msg c1 = (c', Raise e)
  end.
Proof.
  intros Hne Hdec Hall. unfold process_chunk. rewrite Hdec.
  rewrite split_join; [| exact Hne |].
  - unfold bind, modify.
    pose proof (@for_each_dispatch json_loads (join _MSG_DELIMITER items)
                  items Hall
                  (add_event (Print (join _MSG_DELIMITER items)) c)) as H.
    simpl in H. rewrite dispatches_app in H. simpl in H.
    rewrite app_nil_r in H. exact H.
  - eapply Forall_impl; [| exact Hall]. intros f [Hf _]. exact Hf.
Qed.

(** The chunk [message:{"id": "msg_auth", "result": [false]}message:<tick>]. *)
Definition failed_auth_then_tick : list pystr :=
  [[]; auth_fail_text; tick_text].

(** C1 as stated fails: of the two well-formed messages of that chunk
    only the first reaches a handler, because the handler of the first
    raises and the exception leaves the loop. *)
Lemma all_messages_dispatched_counterexample :
  ~ all_messages_dispatched demo_loads.
Proof.
  intro H.
  specialize (H (ascii_bytes (join _MSG_DELIMITER failed_auth_then_tick))
                failed_auth_then_tick fresh).
  assert (Hne : failed_auth_then_tick <> []) by discriminate.
  assert (Hdec : cp1251_decode
                   (ascii_bytes (join _MSG_DELIMITER failed_auth_then_tick))
                 = Some (join _MSG_DELIMITER failed_auth_then_tick))
    by (vm_compute; reflexivity).
  assert (Hok : Forall (fragment_ok demo_loads) failed_auth_then_tick).
  { repeat (apply Forall_cons || apply Forall_nil);
      (split; [reflexivity |]);
      first [left; reflexivity | right; eexists; reflexivity]. }
  specialize (H Hne Hdec Hok).
  vm_compute in H. discriminate H.
Qed.

(** *** The theorems above on concrete messages *)

Lemma on_auth_result_witness :
  _on_auth auth_fail_msg fresh = (fresh, Raise auth_failed)
  /\ snd (process_item demo_loads auth_fail_text auth_fail_text fresh)
     = Raise auth_failed
  /\ status (fst (process_item demo_loads auth_fail_text auth_fail_text fresh))
     = status fresh.
Proof.
  apply (@on_auth_result demo_loads fresh auth_fail_text auth_fail_text
           auth_fail_msg (JArr [JBool false]) false);
    try reflexivity.
  discriminate.
Defined.

Lemma on_auth_falsy_unchanged_witness :
  _on_auth (JObj [(lit "result", JArr [JInt 0])]) subscribed
  = (subscribed, Raise auth_failed).
Proof.
  apply (@on_auth_falsy_unchanged subscribed
           (JObj [(lit "result", JArr [JInt 0])]) (JArr [JInt 0]) (JInt 0));
    reflexivity.
Defined.

Lemma dispatch_in_order_witness :
  dispatches (trace (fst (process_chunk demo_loads
     (ascii_bytes (join _MSG_DELIMITER [[]; auth_ok_text; []; tick_text]))
     subscribed)))
  = [(H_on_auth, auth_ok_msg); (H_callback, tick_msg)].
Proof.
  pose proof (@dispatch_in_order demo_loads
           (ascii_bytes (join _MSG_DELIMITER [[]; auth_ok_text; []; tick_text]))
           [[]; auth_ok_text; []; tick_text] subscribed) as H.
  assert (Hne : [[]; auth_ok_text; []; tick_text] <> []) by discriminate.
  assert (Hdec : cp1251_decode
            (ascii_bytes (join _MSG_DELIMITER [[]; auth_ok_text; []; tick_text]))
          = Some (join _MSG_DELIMITER [[]; auth_ok_text; []; tick_text]))
    by (vm_compute; reflexivity).
  assert (Hok : Forall (fragment_ok demo_loads)
                       [[]; auth_ok_text; []; tick_text]).
  { repeat (apply Forall_cons || apply Forall_nil);
      (split; [reflexivity |]);
      first [left; reflexivity | right; eexists; reflexivity]. }
  specialize (H Hne Hdec Hok).
  destruct (process_chunk demo_loads
     (ascii_bytes (join _MSG_DELIMITER [[]; auth_ok_text; []; tick_text]))
     subscribed) as [c' [[] | e]] eqn:E.
  - exact H.
  - vm_compute in E. discriminate E.
Defined.

(* ================================================================== *)
(** * Further properties of the connector *)

(** ** The subscription registry *)

Lemma pystr_eqb_eq a b : pystr_eqb a b = true <-> a = b.
Proof.
  revert b. induction a as [| x a IH]; destruct b as [| y b]; simpl;
    try (split; [discriminate | congruence]); [tauto |].
  rewrite Bool.andb_true_iff, N.eqb_eq, IH. split.
  - intros [-> ->]. reflexivity.
  - intro H. injection H as -> ->. auto.
Qed.

Lemma key_eqb_eq a b : key_eqb a b = true <-> a = b.
Proof.
  destruct a as [a1 a2], b as [b1 b2]. unfold key_eqb. simpl.
  rewrite Bool.andb_true_iff, !pystr_eqb_eq. split.
  - intros [-> ->]. reflexivity.
  - intro H. injection H as -> ->. auto.
Qed.

Lemma key_eqb_refl a : key_eqb a a = true.
Proof. now apply key_eqb_eq. Qed.

Lemma dict_get_set_same {V} k (v : V) d : dict_get k (dict_set k v d) = Some v.
Proof.
  induction d as [| [k' v'] d IH]; simpl.
  - now rewrite key_eqb_refl.
  - destruct (key_eqb k k') eqn:E; simpl; rewrite E; [reflexivity | exact IH].
Qed.

Lemma dict_get_set_other {V} k k' (v : V) d :
  k' <> k -> dict_get k' (dict_set k v d) = dict_get k' d.
Proof.
  intro Hne. induction d as [| [k0 v0] d IH]; simpl.
  - destruct (key_eqb k' k) eqn:E; [apply key_eqb_eq in E; congruence | auto].
  - destruct (key_eqb k k0) eqn:E; simpl.
    + apply key_eqb_eq in E. subst k0.
      destruct (key_eqb k' k) eqn:E'; [apply key_eqb_eq in E'; congruence | auto].
    + now rewrite IH.
Qed.

Lemma dict_set_keys {V} k (v : V) d :
  map fst (dict_set k v d)
  = if existsb (key_eqb k) (map fst d) then map fst d else map fst d ++ [k].
Proof.
  induction d as [| [k' v'] d IH]; simpl; [reflexivity |].
  destruct (key_eqb k k') eqn:E; simpl; [reflexivity |].
  rewrite IH. now destruct (existsb (key_eqb k) (map fst d)).
Qed.

Lemma existsb_key_In k (ks : list (list N * list N)) :
  existsb (key_eqb k) ks = true <-> In k ks.
Proof.
  rewrite existsb_exists. split.
  - intros [x [Hin Hx]]. apply key_eqb_eq in Hx. now subst.
  - intro Hin. exists k. split; [exact Hin | apply key_eqb_refl].
Qed.

Lemma dict_set_NoDup {V} k (v : V) d :
  NoDup (map fst d) -> NoDup (map fst (dict_set k v d)).
Proof.
  intro Hnd. rewrite dict_set_keys.
  destruct (existsb (key_eqb k) (map fst d)) eqn:E; [exact Hnd |].
  apply NoDup_app; [exact Hnd | repeat constructor; intros [] | ].
  intros x Hx [-> | []].
  apply existsb_key_In in Hx. congruence.
Qed.

(** ** [run] in three parts *)

(** What [run] does between the connection and the exit. *)
Definition run_loop (json_loads : list N -> loads_outcome)
  (chunks : list (list byte)) : M unit :=
  _auth ;;
  _create_subscribers_datasources ;;
  for_each chunks (process_chunk json_loads).

(** The lines of [run] after the loop. *)
Definition run_exit : M unit :=
  log INFO (lit "Interrupted by user") [] ;;
  modify (set_status DISCONNECTED) ;;
  modify (fun c => match _sock c with
                   | Some s => set_sock (Some (mkSocket (connected s) true
                                                        (sent s))) c
                   | None => c
                   end) ;;
  log INFO (lit "Disconnected") [].

Lemma run_parts json_loads ok chunks c :
  run json_loads ok chunks c
  = (_connect_sock ok ;; (run_loop json_loads chunks ;; run_exit)) c.
Proof.
  unfold run, run_loop, run_exit, bind.
  destruct (_connect_sock ok c) as [c1 [[] | e]]; [| reflexivity].
  destruct (_auth c1) as [c2 [[] | e]]; [| reflexivity].
  destruct (_create_subscribers_datasources c2) as [c3 [[] | e]];
    [| reflexivity].
  destruct (for_each chunks (process_chunk json_loads) c3) as [c4 [[] | e]];
    reflexivity.
Qed.

Section PreservationLoop.

Variable R : QuikConnector -> QuikConnector -> Prop.
Hypothesis R_refl : forall c, R c c.
Hypothesis R_trans : forall a b c, R a b -> R b c -> R a c.
Hypothesis R_log : forall l f a c, R c (add_event (Log l f a) c).
Hypothesis R_feed : forall c f a b p q,
  R c (add_event (FeedCall (status c) f a b p q) c).
Hypothesis R_connected : forall c, R c (set_status CONNECTED c).
Hypothesis R_write : forall c s data,
  _sock c = Some s ->
  R c (set_sock (Some (mkSocket (connected s) (closed s) (sent s ++ [data]))) c).
Hypothesis R_dispatch : forall h m c, R c (add_event (Dispatch h m) c).
Hypothesis R_print : forall t c, R c (add_event (Print t) c).

Variable json_loads : list N -> loads_outcome.

Ltac loop_step :=
  lazymatch goal with
  | |- preserves _ (log _ _ _) => now apply preserves_log
  | |- preserves _ (send_text _) => now apply preserves_send_text
  | |- preserves _ (ret _) => now apply preserves_ret
  | |- preserves _ (raise _) => now apply preserves_raise
  | |- preserves _ (lift _) => now apply preserves_lift
  | |- preserves _ (gets _) => now apply preserves_gets
  | |- preserves _ (call_handler _ _) => now apply preserves_call_handler
  | |- preserves _ _create_subscribers_datasources =>
      now apply preserves_replay
  | |- preserves _ (modify _) => apply preserves_modify; intro
  | |- preserves _ (for_each _ _) =>
      apply preserves_for_each; [exact R_refl | exact R_trans | intro]
  | |- preserves _ (bind _ _) =>
      apply preserves_bind; [exact R_trans | | intro]
  | |- preserves _ (match ?x with _ => _ end) => destruct x
  end.

Lemma preserves_process_item data item :
  preserves R (process_item json_loads data item).
Proof.
  unfold process_item. repeat loop_step. apply R_dispatch.
Qed.

Lemma preserves_process_chunk data :
  preserves R (process_chunk json_loads data).
Proof.
  unfold process_chunk. repeat loop_step.
  - apply R_print.
  - apply preserves_process_item.
Qed.

Lemma preserves_auth : preserves R _auth.
Proof. unfold _auth. repeat loop_step. Qed.

Lemma preserves_run_loop chunks : preserves R (run_loop json_loads chunks).
Proof.
  unfold run_loop. repeat loop_step.
  - apply preserves_auth.
  - apply preserves_process_chunk.
Qed.

End PreservationLoop.

(** ** Fields that a method leaves alone *)

Section Same.

Context {A : Type} (f : QuikConnector -> A).

(** The value of [f] after is the value of [f] before. *)
Definition same (a b : QuikConnector) : Prop := f b = f a.

Lemma same_refl c : same c c.
Proof. reflexivity. Qed.

Lemma same_trans a b c : same a b -> same b c -> same a c.
Proof. unfold same. congruence. Qed.

Hypothesis f_event : forall e c, f (add_event e c) = f c.
Hypothesis f_status : forall s c, f (set_status s c) = f c.

Lemma same_call_handler h msg c : f (fst (call_handler h msg c)) = f c.
Proof.
  apply (@preserves_call_handler same same_refl same_trans);
    intros; unfold same; rewrite ?f_event, ?f_status; reflexivity.
Qed.

Lemma same_process_chunk json_loads data c :
  f (fst (process_chunk json_loads data c)) = f c.
Proof.
  apply (@preserves_process_chunk same same_refl same_trans);
    intros; unfold same; rewrite ?f_event, ?f_status; reflexivity.
Qed.

Hypothesis f_write : forall c s data,
  _sock c = Some s ->
  f (set_sock (Some (mkSocket (connected s) (closed s) (sent s ++ [data]))) c)
  = f c.

Lemma same_run_loop json_loads chunks c :
  f (fst (run_loop json_loads chunks c)) = f c.
Proof.
  apply (@preserves_run_loop same same_refl same_trans);
    intros; unfold same; rewrite ?f_event, ?f_status; auto.
Qed.

Lemma same_subscribe n k cb c :
  (forall d c', f (set_feed_callbacks d c') = f c') ->
  f (fst (subscribe n k cb c)) = f c.
Proof.
  intro f_registry.
  apply (@preserves_subscribe same same_refl same_trans);
    intros; unfold same; rewrite ?f_event; auto.
Qed.

Lemma same_send_order a b q c :
  (forall n c', f (set_last_trans_id n c') = f c') ->
  f (fst (_send_order a b q c)) = f c.
Proof.
  intro f_counter.
  apply (@preserves_send_order same same_refl same_trans);
    intros; unfold same; rewrite ?f_event; auto.
Qed.

Lemma same_run json_loads ok chunks c :
  (forall v c', f (set_sock v c') = f c') ->
  f (fst (run json_loads ok chunks c)) = f c.
Proof.
  intro f_sock. rewrite run_parts. unfold bind.
  assert (H1 : f (fst (_connect_sock ok c)) = f c).
  { unfold _connect_sock, bind, modify, gets, log, raise.
    destruct ok; simpl; rewrite ?f_event, ?f_sock, ?f_event, ?f_status;
      reflexivity. }
  destruct (_connect_sock ok c) as [c1 [[] | e]]; simpl in H1; [| exact H1].
  pose proof (same_run_loop json_loads chunks c1) as H2.
  destruct (run_loop json_loads chunks c1) as [c2 [[] | e]]; simpl in H2;
    [| simpl; congruence].
  unfold run_exit, bind, modify, log. simpl.
  rewrite f_event. destruct (_sock c2); simpl;
    rewrite ?f_sock, ?f_status, ?f_event; congruence.
Qed.

End Same.

(** ** Writing to the socket *)

Arguments format : simpl never.
Arguments lit : simpl never.
Arguments tmpl : simpl never.
Arguments utf8_encode : simpl never.
Arguments str_of_Z : simpl never.

Lemma subscribe_unfold n k f c :
  subscribe n k f c
  = if Status_eqb (status c) CONNECTED
    then _create_datasource n k
           (set_feed_callbacks (dict_set (n, k) f (_feed_callbacks c)) c)
    else (set_feed_callbacks (dict_set (n, k) f (_feed_callbacks c)) c, Ok tt).
Proof.
  unfold subscribe, bind, modify, gets. cbn [status set_feed_callbacks].
  destruct (Status_eqb (status c) CONNECTED); reflexivity.
Qed.

Lemma create_datasource_registry a b c :
  _feed_callbacks (fst (_create_datasource a b c)) = _feed_callbacks c.
Proof.
  apply (@preserves_create_datasource (same _feed_callbacks)
           (@same_refl _ _) (@same_trans _ _));
    intros; reflexivity.
Qed.

Lemma send_text_ok msg data c s0 :
  _sock c = Some (mkSocket true false s0) ->
  utf8_encode msg = Some data ->
  send_text msg c
  = (set_sock (Some (mkSocket true false (s0 ++ [data]))) c, Ok tt).
Proof.
  intros Hs He. unfold send_text, bind, gets, modify.
  rewrite Hs, He. reflexivity.
Qed.

Lemma create_datasource_ok a b data c s0 :
  _sock c = Some (mkSocket true false s0) ->
  utf8_encode (create_datasource_msg a b) = Some data ->
  _create_datasource a b c
  = (set_sock (Some (mkSocket true false (s0 ++ [data])))
       (add_event (Log INFO (lit "Sending msg: %s")
                       [AStr (create_datasource_msg a b)]) c),
     Ok tt).
Proof.
  intros Hs He. unfold _create_datasource, bind, log, modify.
  simpl. erewrite send_text_ok; [reflexivity | exact Hs | exact He].
Qed.

(** X1.  [subscribe] records the callback before it looks at the
    status: whatever the status and whether or not the request can be
    written, afterwards the pair is registered with the new callback,
    every other pair is registered as before, no key is listed twice if
    none was, and the status is the one it was. *)
Theorem subscribe_registers (n k : list N) (f : callback)
  (c : QuikConnector) :
  let c' := fst (subscribe n k f c) in
  _feed_callbacks c' = dict_set (n, k) f (_feed_callbacks c) /\
  dict_get (n, k) (_feed_callbacks c') = Some f /\
  (forall k', k' <> (n, k) ->
     dict_get k' (_feed_callbacks c') = dict_get k' (_feed_callbacks c)) /\
  (NoDup (map fst (_feed_callbacks c)) ->
   NoDup (map fst (_feed_callbacks c'))) /\
  status c' = status c.
Proof.
  intro c'.
  assert (Hreg : _feed_callbacks c' = dict_set (n, k) f (_feed_callbacks c)).
  { subst c'. rewrite subscribe_unfold.
    destruct (Status_eqb (status c) CONNECTED); [| reflexivity].
    now rewrite create_datasource_registry. }
  split; [exact Hreg |]. rewrite Hreg.
  split; [apply dict_get_set_same |].
  split; [intros k' Hk; now apply dict_get_set_other |].
  split; [apply dict_set_NoDup |].
  subst c'. apply (same_subscribe status); intros; reflexivity.
Qed.

(** X2.  [subscribe] writes to the socket only under the status
    CONNECTED.  Under any other status it writes nothing and cannot
    fail, socket or no socket: the registry is the only thing it
    changes.  Under CONNECTED, on a socket that is connected and open,
    it writes exactly one message, the CreateDataSource request of the
    pair in UTF-8, after whatever was written before. *)
Theorem subscribe_writes_when_connected (n k : list N) (f : callback)
  (c : QuikConnector) :
  (status c <> CONNECTED ->
   subscribe n k f c
   = (set_feed_callbacks (dict_set (n, k) f (_feed_callbacks c)) c, Ok tt)) /\
  (forall s0 data,
     status c = CONNECTED ->
     _sock c = Some (mkSocket true false s0) ->
     utf8_encode (create_datasource_msg n k) = Some data ->
     snd (subscribe n k f c) = Ok tt /\
     _sock (fst (subscribe n k f c))
     = Some (mkSocket true false (s0 ++ [data]))).
Proof.
  split.
  - intro Hs. rewrite subscribe_unfold.
    destruct (status c); try reflexivity. congruence.
  - intros s0 data Hst Hs He. rewrite subscribe_unfold, Hst.
    cbn [Status_eqb].
    erewrite create_datasource_ok; [split; reflexivity | exact Hs | exact He].
Qed.

(** ** What [run] writes *)

(** The bytes of the CreateDataSource requests of a registry, entry by
    entry. *)
Definition replay_bytes (reg : list ((list N * list N) * callback))
  (bs : list (list byte)) : Prop :=
  Forall2 (fun e b =>
             utf8_encode (create_datasource_msg (fst (fst e)) (snd (fst e)))
             = Some b) reg bs.

Lemma replay_ok reg bs :
  replay_bytes reg bs ->
  forall c s0,
    _sock c = Some (mkSocket true false s0) ->
    exists c',
      for_each reg (fun '((a, b), _) => _create_datasource a b) c
      = (c', Ok tt)
      /\ _sock c' = Some (mkSocket true false (s0 ++ bs)).
Proof.
  induction 1 as [| [[a b] f] data reg bs He _ IH]; intros c s0 Hs.
  - exists c. simpl. rewrite app_nil_r. auto.
  - simpl in He. cbn [for_each]. unfold bind.
    rewrite (create_datasource_ok _ _ _ Hs He).
    destruct (IH (set_sock (Some (mkSocket true false (s0 ++ [data])))
                    (add_event (Log INFO (lit "Sending msg: %s")
                                    [AStr (create_datasource_msg a b)]) c))
                 (s0 ++ [data]) eq_refl) as [c' [Hrun Hsock]].
    exists c'. rewrite Hrun, Hsock, <- app_assoc. auto.
Qed.

Lemma for_each_chunks_sock json_loads chunks c :
  _sock (fst (for_each chunks (process_chunk json_loads) c)) = _sock c.
Proof.
  apply (@preserves_for_each (same _sock) (@same_refl _ _) (@same_trans _ _)).
  intros d c'. apply same_process_chunk; reflexivity.
Qed.

Lemma connect_sock_ok c :
  _connect_sock true c = (fst (_connect_sock true c), Ok tt)
  /\ _sock (fst (_connect_sock true c)) = Some (mkSocket true false [])
  /\ status (fst (_connect_sock true c)) = CONNECTING
  /\ _passwd (fst (_connect_sock true c)) = _passwd c
  /\ _feed_callbacks (fst (_connect_sock true c)) = _feed_callbacks c.
Proof. repeat split. Qed.

Lemma auth_ok c s0 a :
  _sock c = Some (mkSocket true false s0) ->
  utf8_encode (auth_msg (_passwd c)) = Some a ->
  _auth c
  = (set_sock (Some (mkSocket true false (s0 ++ [a])))
       (add_event (Log DEBUG (lit "Sending message: %s")
                       [AStr (auth_msg (_passwd c))]) c),
     Ok tt).
Proof.
  intros Hs Ha. unfold _auth, bind, gets, log, modify. cbn [fst snd].
  erewrite send_text_ok; [reflexivity | exact Hs | exact Ha].
Qed.

(** X3.  Once the connection is made, everything [run] writes is the
    auth request followed by one CreateDataSource request per entry of
    the registry, in the order of the registry, each in UTF-8; this is
    written before the first chunk is read, and nothing that is received
    afterwards makes [run] write again. *)
Theorem run_writes json_loads (chunks : list (list byte))
  (c : QuikConnector) (a : list byte) (bs : list (list byte)) :
  utf8_encode (auth_msg (_passwd c)) = Some a ->
  replay_bytes (_feed_callbacks c) bs ->
  sock_sent (fst (run json_loads true chunks c)) = a :: bs.
Proof.
  intros Ha Hbs.
  { unfold run.
    destruct (connect_sock_ok c) as (H1 & Hs1 & _ & Hp1 & Hr1).
    unfold bind at 1. rewrite H1.
    set (c1 := fst (_connect_sock true c)) in *.
    rewrite <- Hp1 in Ha. rewrite <- Hr1 in Hbs.
    unfold bind at 1. rewrite (auth_ok _ Hs1 Ha).
    set (c2 := set_sock _ _).
    assert (Hs2 : _sock c2 = Some (mkSocket true false ([] ++ [a])))
      by reflexivity.
    assert (Hr2 : _feed_callbacks c2 = _feed_callbacks c1) by reflexivity.
    rewrite <- Hr2 in Hbs.
    destruct (replay_ok Hbs c2 Hs2) as [c3 [Hrun Hs3]].
    unfold bind at 1. unfold _create_subscribers_datasources.
    unfold bind at 1. unfold gets at 1. rewrite Hrun.
    pose proof (for_each_chunks_sock json_loads chunks c3) as Hs4.
    unfold bind.
    destruct (for_each chunks (process_chunk json_loads) c3)
      as [c4 [[] | e]]; simpl in Hs4.
    - unfold sock_sent, modify, log. cbn. rewrite Hs4, Hs3. reflexivity.
    - unfold sock_sent. cbn. rewrite Hs4, Hs3. reflexivity. }
Qed.

(** ** Orders *)

Lemma send_order_unfold a b q c :
  _send_order a b q c
  = let id := (_last_trans_id c + 1)%Z in
    let m := order_msg (_account c) id a b q in
    (send_text m ;; send_text (trans_reply_msg id))
      (add_event (Log INFO (lit "Sending order %s") [AStr m])
         (set_last_trans_id id c)).
Proof. reflexivity. Qed.

Lemma send_text_no_socket msg c :
  _sock c = None -> send_text msg c = (c, Raise AttributeError).
Proof.
  intro Hn. unfold send_text, bind, gets, raise. rewrite Hn. reflexivity.
Qed.

Lemma send_order_counter a b q c :
  _last_trans_id (fst (_send_order a b q c)) = (_last_trans_id c + 1)%Z.
Proof.
  rewrite send_order_unfold. cbv zeta.
  set (c1 := add_event _ _).
  change (_last_trans_id c + 1)%Z with (_last_trans_id c1).
  apply (@preserves_bind (same _last_trans_id) (@same_trans _ _)).
  - apply preserves_send_text; [apply same_refl | reflexivity].
  - intros _. apply preserves_send_text; [apply same_refl | reflexivity].
Qed.

(** X4.  [_send_order] takes the next transaction id before it tries to
    write: the counter goes up by one on every call, also on a call that
    fails, and a call on an object that has no socket yet fails with
    AttributeError and writes nothing. *)
Theorem send_order_takes_id (a b : list N) (q : Z) (c : QuikConnector) :
  _last_trans_id (fst (_send_order a b q c)) = (_last_trans_id c + 1)%Z /\
  (_sock c = None ->
   snd (_send_order a b q c) = Raise AttributeError /\
   _sock (fst (_send_order a b q c)) = None).
Proof.
  split; [apply send_order_counter |].
  rewrite send_order_unfold. cbv zeta.
  set (c1 := add_event _ _).
  assert (Hs : _sock c1 = _sock c) by reflexivity.
  - intro Hn. rewrite <- Hs in Hn.
    unfold bind. rewrite (send_text_no_socket _ _ Hn). auto.
Qed.

(** The bytes that a list of orders puts on the wire when the ids are
    handed out from [id] on: for each order the transaction with the
    next id, then the reply request with the same id. *)
Inductive order_bytes (account : list N)
  : Z -> list (list N * list N * Z) -> list (list byte) -> Prop :=
| order_bytes_nil id : order_bytes account id [] []
| order_bytes_cons id a b q rest m1 m2 bs :
    utf8_encode (order_msg account (id + 1)%Z a b q) = Some m1 ->
    utf8_encode (trans_reply_msg (id + 1)%Z) = Some m2 ->
    order_bytes account (id + 1)%Z rest bs ->
    order_bytes account id ((a, b, q) :: rest) (m1 :: m2 :: bs).

Lemma send_order_ok a b q c s0 m1 m2 :
  _sock c = Some (mkSocket true false s0) ->
  utf8_encode (order_msg (_account c) (_last_trans_id c + 1)%Z a b q)
    = Some m1 ->
  utf8_encode (trans_reply_msg (_last_trans_id c + 1)%Z) = Some m2 ->
  exists c',
    _send_order a b q c = (c', Ok tt)
    /\ _sock c' = Some (mkSocket true false (s0 ++ [m1; m2]))
    /\ _last_trans_id c' = (_last_trans_id c + 1)%Z
    /\ _account c' = _account c.
Proof.
  intros Hs H1 H2. rewrite send_order_unfold. cbv zeta.
  set (c1 := add_event _ _).
  assert (Hs1 : _sock c1 = Some (mkSocket true false s0)) by exact Hs.
  unfold bind. rewrite (@send_text_ok _ _ _ _ Hs1 H1).
  set (c2 := set_sock _ c1).
  assert (Hs2 : _sock c2 = Some (mkSocket true false (s0 ++ [m1])))
    by reflexivity.
  rewrite (@send_text_ok _ _ _ _ Hs2 H2).
  eexists. split; [reflexivity |]. cbn. rewrite <- app_assoc. auto.
Qed.

(** X5.  Orders sent one after the other on a connected socket all
    succeed; the k-th of them carries the id that is k above the counter
    at the start, in its transaction text, in its message id and in the
    reply request that follows it, and the counter ends that many
    higher. *)
Theorem send_orders_numbered (orders : list (list N * list N * Z))
  (c : QuikConnector) (s0 bs : list (list byte)) :
  _sock c = Some (mkSocket true false s0) ->
  order_bytes (_account c) (_last_trans_id c) orders bs ->
  exists c',
    for_each orders (fun '(a, b, q) => _send_order a b q) c = (c', Ok tt)
    /\ _sock c' = Some (mkSocket true false (s0 ++ bs))
    /\ _last_trans_id c' = (_last_trans_id c + Z.of_nat (length orders))%Z.
Proof.
  intros Hs Hb. remember (_account c) as acct eqn:Ha.
  remember (_last_trans_id c) as id eqn:Hid.
  revert c s0 Hs Ha Hid.
  induction Hb as [id | id a b q rest m1 m2 bs H1 H2 Hrest IH];
    intros c s0 Hs Ha Hid.
  - exists c. simpl. rewrite app_nil_r, Z.add_0_r. auto.
  - subst acct id.
    destruct (send_order_ok a b q c Hs H1 H2) as (c1 & Hrun & Hs1 & Hid1 & Ha1).
    destruct (IH c1 _ Hs1 (eq_sym Ha1) (eq_sym Hid1))
      as (c' & Hrun' & Hs' & Hid').
    exists c'. cbn [for_each]. unfold bind. rewrite Hrun, Hrun'.
    split; [reflexivity |]. split.
    + rewrite Hs', <- app_assoc. reflexivity.
    + rewrite Hid', ?Hid1. cbn [length]. lia.
Qed.

(** ** One object over its life *)

Definition is_order (call : api_call) : bool :=
  match call with
  | CallSendOrder _ _ _ => true
  | _ => false
  end.

Lemma exec_call_same {A} (f : QuikConnector -> A) json_loads call c :
  (forall e c', f (add_event e c') = f c') ->
  (forall s c', f (set_status s c') = f c') ->
  (forall v c', f (set_sock v c') = f c') ->
  (forall d c', f (set_feed_callbacks d c') = f c') ->
  (forall n c', f (set_last_trans_id n c') = f c') ->
  f (fst (exec_call json_loads call c)) = f c.
Proof.
  intros He Hst Hso Hre Hco. destruct call as [n k cb | a b q | ok chunks].
  - apply same_subscribe; auto.
  - apply same_send_order; auto.
  - apply same_run; auto.
Qed.

(** X6.  Over any sequence of calls on one object the constructor's
    arguments stay what they were, and the transaction counter is moved
    by [_send_order] alone: after the calls it is its first value plus
    the number of [_send_order] calls made, whether they succeeded or
    not.  On a fresh object the n-th order therefore carries the id n. *)
Theorem counter_counts_orders json_loads (calls : list api_call)
  (c : QuikConnector) :
  let c' := exec_calls json_loads calls c in
  _last_trans_id c'
    = (_last_trans_id c + Z.of_nat (length (filter is_order calls)))%Z /\
  _host c' = _host c /\ _port c' = _port c /\
  _passwd c' = _passwd c /\ _account c' = _account c.
Proof.
  revert c. induction calls as [| call calls IH]; intro c.
  - cbn. rewrite Z.add_0_r. auto.
  - cbv zeta in *. unfold exec_calls in *. cbn [fold_left].
    destruct (IH (fst (exec_call json_loads call c)))
      as (Hc & Hh & Hp & Hpw & Ha).
    rewrite Hh, Hp, Hpw, Ha, Hc.
    rewrite (@exec_call_same _ _host), (@exec_call_same _ _port),
      (@exec_call_same _ _passwd), (@exec_call_same _ _account)
      by (intros; reflexivity).
    repeat split.
    destruct call as [n k cb | a b q | ok chunks]; cbn [filter is_order length].
    + cbn [exec_call]. rewrite same_subscribe by reflexivity. reflexivity.
    + cbn [exec_call]. rewrite send_order_counter. lia.
    + cbn [exec_call]. rewrite same_run by reflexivity. reflexivity.
Qed.

(** ** Status, socket and feed callbacks *)

Definition is_log (e : event) : Prop :=
  match e with
  | Log _ _ _ => True
  | _ => False
  end.

(** A feed callback called at a moment when the status was not
    DISCONNECTED. *)
Definition feed_while_live (e : event) : Prop :=
  match e with
  | FeedCall at_status _ _ _ _ _ => at_status <> DISCONNECTED
  | _ => True
  end.

Definition feed_at (s : Status) (e : event) : Prop :=
  match e with
  | FeedCall at_status _ _ _ _ _ => at_status = s \/ at_status = CONNECTED
  | _ => True
  end.

(** What [subscribe] and [_send_order] may do to status, socket and
    record of events: write log lines. *)
Definition quiet (a b : QuikConnector) : Prop :=
  status b = status a /\
  sock_open b = sock_open a /\
  exists evs, trace b = trace a ++ evs /\ Forall is_log evs.

(** What the handlers and the receive loop may do to them: move the
    status to CONNECTED, and call feed callbacks under the status of the
    moment. *)
Definition live_step (a b : QuikConnector) : Prop :=
  sock_open b = sock_open a /\
  (status b = status a \/ status b = CONNECTED) /\
  exists evs, trace b = trace a ++ evs /\ Forall (feed_at (status a)) evs.

Lemma quiet_refl c : quiet c c.
Proof. repeat split. exists []. now rewrite app_nil_r. Qed.

Lemma quiet_trans a b c : quiet a b -> quiet b c -> quiet a c.
Proof.
  intros (H1 & H2 & e1 & H3 & H4) (H5 & H6 & e2 & H7 & H8).
  repeat split; try congruence.
  exists (e1 ++ e2). rewrite H7, H3, app_assoc. split; [reflexivity |].
  apply Forall_app; auto.
Qed.

Lemma quiet_log l f a c : quiet c (add_event (Log l f a) c).
Proof. repeat split. eexists. split; [reflexivity |]. repeat constructor. Qed.

Lemma quiet_write c s data :
  _sock c = Some s ->
  quiet c (set_sock (Some (mkSocket (connected s) (closed s)
                                    (sent s ++ [data]))) c).
Proof.
  intro Hs. repeat split.
  - unfold sock_open. rewrite Hs. reflexivity.
  - exists []. now rewrite app_nil_r.
Qed.

Lemma live_step_refl c : live_step c c.
Proof. repeat split; auto. exists []. now rewrite app_nil_r. Qed.

Lemma feed_at_forward s s' e :
  s' = s \/ s' = CONNECTED -> feed_at s' e -> feed_at s e.
Proof. destruct e; simpl; auto. intros [-> | ->] [-> | ->]; auto. Qed.

Lemma live_step_trans a b c : live_step a b -> live_step b c -> live_step a c.
Proof.
  intros (H1 & H2 & e1 & H3 & H4) (H5 & H6 & e2 & H7 & H8).
  split; [congruence |]. split.
  - destruct H6 as [H6 | H6]; [rewrite H6; exact H2 | auto].
  - exists (e1 ++ e2). rewrite H7, H3, app_assoc. split; [reflexivity |].
    apply Forall_app. split; [exact H4 |].
    eapply Forall_impl; [| exact H8]. intro e. now apply feed_at_forward.
Qed.

Lemma live_step_event e c :
  feed_at (status c) e -> live_step c (add_event e c).
Proof.
  intro He. repeat split; auto. eexists. split; [reflexivity |].
  repeat constructor. exact He.
Qed.

Lemma live_step_connected c : live_step c (set_status CONNECTED c).
Proof. repeat split; auto. exists []. now rewrite app_nil_r. Qed.

Lemma live_step_write c s data :
  _sock c = Some s ->
  live_step c (set_sock (Some (mkSocket (connected s) (closed s)
                                        (sent s ++ [data]))) c).
Proof.
  intro Hs. repeat split; auto.
  - unfold sock_open. rewrite Hs. reflexivity.
  - exists []. now rewrite app_nil_r.
Qed.

Lemma run_loop_live json_loads chunks c :
  live_step c (fst (run_loop json_loads chunks c)).
Proof.
  apply (@preserves_run_loop live_step live_step_refl live_step_trans);
    intros;
    first [ now apply live_step_write
          | apply live_step_connected
          | apply live_step_event; simpl; auto ].
Qed.

Lemma is_log_live evs : Forall is_log evs -> Forall feed_while_live evs.
Proof.
  intro H. eapply Forall_impl; [| exact H]. intros [] He; simpl in *; tauto.
Qed.

Lemma run_parts_match json_loads ok chunks c :
  run json_loads ok chunks c
  = match _connect_sock ok c with
    | (c1, Ok _) =>
        match run_loop json_loads chunks c1 with
        | (c2, Ok _) => run_exit c2
        | (c2, Raise e) => (c2, Raise e)
        end
    | (c1, Raise e) => (c1, Raise e)
    end.
Proof. rewrite run_parts. reflexivity. Qed.

(** The two ways in which [run] ends. *)
Lemma run_cases json_loads ok chunks c :
  let r := run json_loads ok chunks c in
  (exists evs, trace (fst r) = trace c ++ evs /\ Forall feed_while_live evs) /\
  ((snd r = Ok tt /\ status (fst r) = DISCONNECTED /\
    exists s, _sock (fst r) = Some s /\ closed s = true)
   \/
   (exists e, snd r = Raise e /\ status (fst r) <> DISCONNECTED /\
              sock_open (fst r) = true)).
Proof.
  cbv zeta. rewrite run_parts_match.
  assert (H1 : status (fst (_connect_sock ok c)) = CONNECTING
               /\ sock_open (fst (_connect_sock ok c)) = true
               /\ (exists evs, trace (fst (_connect_sock ok c))
                               = trace c ++ evs
                               /\ Forall feed_while_live evs)
               /\ (snd (_connect_sock ok c) = Ok tt \/
                   exists e, snd (_connect_sock ok c) = Raise e)).
  { destruct ok; cbn; repeat split; eauto.
    - eexists. rewrite <- app_assoc. split; [reflexivity |].
      repeat constructor.
    - eexists. split; [reflexivity |]. repeat constructor. }
  destruct (_connect_sock ok c) as [c1 r1]. cbn [fst snd] in H1.
  destruct H1 as (Hst1 & Hso1 & (ev1 & Ht1 & Hf1) & Hr1).
  destruct r1 as [[] | e1].
  2:{ cbn [fst snd]. split; [eauto |]. right. exists e1.
      split; [reflexivity |]. split; [congruence | exact Hso1]. }
  pose proof (run_loop_live json_loads chunks c1)
    as (Hso2 & Hst2 & ev2 & Ht2 & Hf2).
  destruct (run_loop json_loads chunks c1) as [c2 r2]. cbn [fst snd] in *.
  assert (Hlive2 : status c2 <> DISCONNECTED)
    by (destruct Hst2 as [H | H]; rewrite H; congruence).
  assert (Hf2' : Forall feed_while_live ev2).
  { eapply Forall_impl; [| exact Hf2]. intros [] He; simpl in *; auto.
    destruct He as [-> | ->]; congruence. }
  destruct r2 as [[] | e2].
  - cbn. split.
    + exists (ev1 ++ ev2 ++ [Log INFO (lit "Interrupted by user") [];
                             Log INFO (lit "Disconnected") []]).
      split.
      * destruct (_sock c2); cbn; rewrite Ht2, Ht1, <- !app_assoc; reflexivity.
      * rewrite !Forall_app. repeat split; auto. repeat constructor.
    + left. repeat split.
      * destruct (_sock c2); reflexivity.
      * unfold sock_open in Hso2, Hso1. rewrite Hso1 in Hso2.
        destruct (_sock c2) as [s |]; [| discriminate]. cbn. eauto.
  - cbn [fst snd]. split.
    + exists (ev1 ++ ev2). rewrite Ht2, Ht1, app_assoc. split; [reflexivity |].
      apply Forall_app; auto.
    + right. exists e2.
      split; [reflexivity |]. split; [exact Hlive2 | congruence].
Qed.

(** X7.  [run] ends in one of two ways.  When it returns, after the
    interrupt, the status is DISCONNECTED and the socket is closed but
    still held by the object.  When an exception leaves it (a refused
    connection, a failed write, a handler that raises) nothing is
    cleaned up: the status is still CONNECTING or CONNECTED and the
    socket is still open. *)
Theorem run_ends json_loads (ok : bool) (chunks : list (list byte))
  (c : QuikConnector) :
  match run json_loads ok chunks c with
  | (c', Ok _) =>
      status c' = DISCONNECTED /\
      exists s, _sock c' = Some s /\ closed s = true
  | (c', Raise _) =>
      (status c' = CONNECTING \/ status c' = CONNECTED) /\
      sock_open c' = true
  end.
Proof.
  destruct (run_cases json_loads ok chunks c) as [_ H].
  destruct (run json_loads ok chunks c) as [c' [[] | e]]; cbn [fst snd] in H.
  - destruct H as [(_ & Hs & Hc) | (e & He & _)]; [auto | discriminate].
  - destruct H as [(He & _) | (e' & _ & Hs & Ho)]; [discriminate |].
    split; [| exact Ho]. destruct (status c'); auto. congruence.
Qed.

Lemma quiet_registry c d : quiet c (set_feed_callbacks d c).
Proof. repeat split. exists []. now rewrite app_nil_r. Qed.

Lemma quiet_counter c n : quiet c (set_last_trans_id n c).
Proof. repeat split. exists []. now rewrite app_nil_r. Qed.

Lemma subscribe_quiet n k f c : quiet c (fst (subscribe n k f c)).
Proof.
  apply (@preserves_subscribe quiet quiet_refl quiet_trans);
    intros; first [ apply quiet_log | now apply quiet_write
                  | apply quiet_registry ].
Qed.

Lemma send_order_quiet a b q c : quiet c (fst (_send_order a b q c)).
Proof.
  apply (@preserves_send_order quiet quiet_refl quiet_trans);
    intros; first [ apply quiet_log | now apply quiet_write
                  | apply quiet_counter ].
Qed.

(** What holds of an object between two calls. *)
Definition between_calls (c : QuikConnector) : Prop :=
  Forall feed_while_live (trace c) /\
  (sock_open c = true <-> status c <> DISCONNECTED).

Lemma between_calls_init host port passwd account :
  between_calls (init host port passwd account).
Proof.
  split; [constructor |]. cbn. split; [discriminate | congruence].
Qed.

Lemma between_calls_step json_loads call c :
  between_calls c -> between_calls (fst (exec_call json_loads call c)).
Proof.
  intros [Hf Hio].
  assert (Hq : forall c', quiet c c' -> between_calls c').
  { intros c' (Hst & Hso & evs & Ht & Hl). split.
    - rewrite Ht. apply Forall_app. split; [exact Hf | now apply is_log_live].
    - now rewrite Hst, Hso. }
  destruct call as [n k cb | a b q | ok chunks]; cbn [exec_call].
  - apply Hq, subscribe_quiet.
  - apply Hq, send_order_quiet.
  - destruct (run_cases json_loads ok chunks c) as [(evs & Ht & Hl) H].
    split.
    + rewrite Ht. apply Forall_app. auto.
    + destruct H as [(_ & Hs & s & Hsock & Hc) | (e & _ & Hs & Ho)].
      * unfold sock_open. rewrite Hs, Hsock, Hc. cbn.
        split; [discriminate | congruence].
      * rewrite Ho. tauto.
Qed.

Lemma between_calls_always json_loads calls c :
  between_calls c -> between_calls (exec_calls json_loads calls c).
Proof.
  revert c. induction calls as [| call calls IH]; intros c H; [exact H |].
  apply IH, between_calls_step, H.
Qed.

(** X8.  However an object is used, a feed callback is never called
    while the status is DISCONNECTED: every call recorded happened under
    the status CONNECTING or CONNECTED. *)
Theorem feed_calls_while_live json_loads (calls : list api_call)
  (host : list N) (port : Z) (passwd account : list N) :
  Forall feed_while_live
    (trace (exec_calls json_loads calls (init host port passwd account))).
Proof.
  apply between_calls_always, between_calls_init.
Qed.

(** X9.  Between any two calls on an object, its socket is open (held
    and not closed) exactly when its status is CONNECTING or
    CONNECTED. *)
Theorem socket_open_iff_live json_loads (calls : list api_call)
  (host : list N) (port : Z) (passwd account : list N) :
  let c := exec_calls json_loads calls (init host port passwd account) in
  sock_open c = true <-> (status c = CONNECTING \/ status c = CONNECTED).
Proof.
  intro c.
  destruct (between_calls_always json_loads calls
              (between_calls_init host port passwd account)) as [_ H].
  fold c in H. rewrite H. destruct (status c); split; intro H';
    try congruence; auto.
  destruct H' as [H' | H']; discriminate.
Qed.

(** ** What the receive loop never does *)

(** X10.  Processing a chunk never writes to the socket, never touches
    the registry or the transaction counter, and moves the status
    nowhere but to CONNECTED, whatever the chunk holds and whether or
    not a handler raises. *)
Theorem process_chunk_only_reads json_loads (data : list byte)
  (c : QuikConnector) :
  let c' := fst (process_chunk json_loads data c) in
  _sock c' = _sock c /\
  _feed_callbacks c' = _feed_callbacks c /\
  _last_trans_id c' = _last_trans_id c /\
  (status c' = status c \/ status c' = CONNECTED).
Proof.
  cbv zeta. repeat split; try (apply same_process_chunk; reflexivity).
  apply (@preserves_process_chunk live_step live_step_refl live_step_trans);
    intros;
    first [ apply live_step_connected | apply live_step_event; simpl; auto ].
Qed.

(** ** Messages that find no handler *)

Lemma pystr_eqb_neq a b : a <> b -> pystr_eqb a b = false.
Proof.
  intro H. destruct (pystr_eqb a b) eqn:E; [| reflexivity].
  apply pystr_eqb_eq in E. contradiction.
Qed.

(** X11.  A message whose id is hashable and is none of the three keys
    of the dispatch table is dropped: no handler is called, nothing is
    logged, nothing is raised. *)
Theorem unknown_id_dropped json_loads (data item : list N) (msg id : json)
  (c : QuikConnector) :
  item <> [] ->
  json_loads item = Decoded msg ->
  getitem msg (lit "id") = Ok id ->
  hashable id = true ->
  id <> JStr _MSG_ID_AUTH ->
  id <> JStr _MSG_ID_CREATE_DATASOURCE ->
  id <> JStr (lit "callback") ->
  process_item json_loads data item c = (c, Ok tt).
Proof.
  intros Hne Hl Hid Hh H1 H2 H3.
  assert (Hc : callbacks_get id = Ok None).
  { destruct id; try reflexivity; try discriminate.
    unfold callbacks_get.
    rewrite !pystr_eqb_neq by congruence. reflexivity. }
  destruct item as [| x item]; [congruence |].
  unfold process_item. rewrite Hl. unfold bind, lift. rewrite Hid, Hc.
  reflexivity.
Qed.

(** X12.  A push event whose callback name is hashable and is neither
    OnAllTrade nor OnTransReply is dropped by [_callback] without a
    trace. *)
Theorem unknown_callback_dropped (msg name : json) (c : QuikConnector) :
  getitem msg (lit "callback_name") = Ok name ->
  hashable name = true ->
  name <> JStr (lit "OnAllTrade") ->
  name <> JStr (lit "OnTransReply") ->
  _callback msg c = (c, Ok tt).
Proof.
  intros Hn Hh H1 H2. unfold _callback, bind, lift. rewrite Hn, Hh.
  cbn [negb].
  assert (E1 : is_str name (lit "OnAllTrade") = false)
    by (destruct name; try reflexivity; apply pystr_eqb_neq; congruence).
  assert (E2 : is_str name (lit "OnTransReply") = false)
    by (destruct name; try reflexivity; apply pystr_eqb_neq; congruence).
  rewrite E1, E2. reflexivity.
Qed.

(** X13.  A fragment that decodes to something that is not an object,
    or to an object without an id, is not dropped: the lookup of the id
    raises (TypeError or KeyError), the loop catches neither, and the
    fragments after it in the batch are not processed. *)
Theorem message_without_id_escapes json_loads (data item : list N)
  (rest : list (list N)) (msg : json) (c : QuikConnector) :
  item <> [] ->
  json_loads item = Decoded msg ->
  (forall v, getitem msg (lit "id") <> Ok v) ->
  exists e,
    (e = TypeError \/ e = KeyError) /\
    getitem msg (lit "id") = Raise e /\
    for_each (item :: rest) (process_item json_loads data) c = (c, Raise e).
Proof.
  intros Hne Hl Hno.
  destruct (getitem msg (lit "id")) as [v | e] eqn:Hg; [now elim (Hno v) |].
  exists e. split.
  - unfold getitem in Hg. destruct msg; try (injection Hg as <-; auto).
    destruct (assoc_get (lit "id") d); [discriminate |].
    injection Hg as <-; auto.
  - split; [reflexivity |].
    destruct item as [| x item]; [congruence |].
    cbn [for_each]. unfold bind at 1. unfold process_item. rewrite Hl.
    unfold bind, lift. rewrite Hg. reflexivity.
Qed.

(** ** The ids of the requests *)

(** The [msg_id] that [_create_datasource] composes. *)
Definition create_datasource_id (sec_name sec_code : list N) : list N :=
  format (lit "%s_%s_%s") [_MSG_ID_CREATE_DATASOURCE; sec_name; sec_code].

Lemma create_datasource_id_chars n k :
  create_datasource_id n k
  = _MSG_ID_CREATE_DATASOURCE ++ 95%N :: n ++ 95%N :: k ++ [].
Proof. reflexivity. Qed.

Lemma str_of_Z_head z :
  exists ch rest, str_of_Z z = ch :: rest /\ (ch <= 57)%N.
Proof.
  unfold str_of_Z, lit.
  destruct z as [| p | p]; cbn [Z.to_int NilZero.string_of_int].
  - eexists _, _. split; [reflexivity | cbv; discriminate].
  - destruct (Pos.to_uint p); cbn;
      eexists _, _; (split; [reflexivity | cbv; discriminate]).
  - cbn. eexists _, _. split; [reflexivity | cbv; discriminate].
Qed.

Lemma digit_first_unrouted ch rest :
  (ch <= 57)%N -> callbacks_get (JStr (ch :: rest)) = Ok None.
Proof.
  intro H. unfold callbacks_get.
  rewrite !pystr_eqb_neq; [reflexivity | | |];
    intro E; vm_compute in E; injection E as E _; subst ch;
    vm_compute in H; congruence.
Qed.

(** X14.  The ids under which this connector sends its requests are not
    keys of its own dispatch table: the id of a CreateDataSource request
    is [msg_create_ds_<name>_<code>], longer than the key
    [msg_create_ds]; an order goes out under its number and the reply
    request under [<number>_reply].  A response that carries the id of
    its request is therefore found no handler, for any instrument and
    any transaction number. *)
Theorem own_request_ids_unrouted (n k account a b : list N) (id q : Z) :
  create_datasource_msg n k
  = format (tmpl "%s{`id`: `%s`,`method`: `CreateDataSource`,`args`: [`%s`, `%s`, `INTERVAL_TICK`]}")
           [_MSG_DELIMITER; create_datasource_id n k; n; k] /\
  callbacks_get (JStr (create_datasource_id n k)) = Ok None /\
  order_msg account id a b q
  = format (tmpl "%s{`id`: `%s`,`method`: `sendTransaction`,`args`: [`%s`]}")
           [_MSG_DELIMITER; str_of_Z id; trans_text account id a b q] /\
  callbacks_get (JStr (str_of_Z id)) = Ok None /\
  trans_reply_msg id
  = format (tmpl "%s{`id`: `%s`,`method`: `OnTransReply`,`args`: [`%s`]}")
           [_MSG_DELIMITER; str_of_Z id ++ lit "_reply"; str_of_Z id] /\
  callbacks_get (JStr (str_of_Z id ++ lit "_reply")) = Ok None.
Proof.
  destruct (str_of_Z_head id) as (ch & rest & Hs & Hch).
  split; [reflexivity |]. split.
  { rewrite create_datasource_id_chars. reflexivity. }
  split; [reflexivity |]. split.
  { rewrite Hs. now apply digit_first_unrouted. }
  split; [reflexivity |].
  rewrite Hs. now apply (digit_first_unrouted (rest ++ lit "_reply")).
Qed.

(** ** The two log-only handlers *)

(** X15.  [_on_trans_reply] takes both shapes of the event: when the
    result is an object that has a [result_msg], that text is logged;
    when the result is anything but an object, the result is logged; in
    both cases nothing else changes.  An object without [result_msg] is
    the one case that raises (KeyError). *)
Theorem on_trans_reply_shapes (msg r : json) (c : QuikConnector) :
  getitem msg (lit "result") = Ok r ->
  _on_trans_reply msg c
  = match r with
    | JObj d =>
        match assoc_get (lit "result_msg") d with
        | Some m => (add_event (Log INFO (lit "%s") [AJson m]) c, Ok tt)
        | None => (c, Raise KeyError)
        end
    | _ => (add_event (Log INFO (lit "Result: %s") [AJson r]) c, Ok tt)
    end.
Proof.
  intro Hr. unfold _on_trans_reply, bind, lift. rewrite Hr.
  destruct r; try reflexivity.
  unfold getitem.
  destruct (assoc_get (lit "result_msg") d); reflexivity.
Qed.

(** X16.  [_on_create_datasource] logs [result[0]] and changes nothing
    else: the first element of a list, or the first character only when
    the result is a text; on an empty list or an empty text it raises
    IndexError. *)
Theorem on_create_datasource_first (msg r : json) (c : QuikConnector) :
  getitem msg (lit "result") = Ok r ->
  (forall x l, r = JArr (x :: l) ->
     _on_create_datasource msg c
     = (add_event (Log INFO (lit "Created datasource id: %s") [AJson x]) c,
        Ok tt)) /\
  (forall ch s, r = JStr (ch :: s) ->
     _on_create_datasource msg c
     = (add_event (Log INFO (lit "Created datasource id: %s")
                       [AJson (JStr [ch])]) c,
        Ok tt)) /\
  (r = JArr [] \/ r = JStr [] ->
   _on_create_datasource msg c = (c, Raise IndexError)).
Proof.
  intro Hr. unfold _on_create_datasource, bind, lift. rewrite Hr.
  repeat split.
  - intros x l ->. reflexivity.
  - intros ch s ->. reflexivity.
  - intros [-> | ->]; reflexivity.
Qed.

(** ** Bytes in, bytes out *)

Lemma cp1251_char_none b : cp1251_char b = None <-> b = x98.
Proof.
  destruct b; vm_compute; split; intro H; try discriminate H; reflexivity.
Qed.

Lemma cp1251_decode_none d : cp1251_decode d = None <-> In x98 d.
Proof.
  induction d as [| b d IH]; simpl.
  - split; [discriminate | tauto].
  - destruct (cp1251_char b) as [ch |] eqn:E.
    + destruct (cp1251_decode d) as [t |].
      * split; [discriminate |]. intros [-> | H].
        -- vm_compute in E. discriminate.
        -- apply IH in H. discriminate.
      * split; [intros _; right; now apply IH | reflexivity].
    + apply cp1251_char_none in E. subst. split; auto.
Qed.

Lemma cp1251_decode_length d t :
  cp1251_decode d = Some t -> length t = length d.
Proof.
  revert t. induction d as [| b d IH]; simpl; intros t H.
  - injection H as <-. reflexivity.
  - destruct (cp1251_char b); [| discriminate].
    destruct (cp1251_decode d) as [t' |]; [| discriminate].
    injection H as <-. simpl. f_equal. now apply IH.
Qed.

(** X17.  The one byte that code page 1251 does not assign is 0x98.  A
    chunk that holds it anywhere is dropped whole, with one logged line
    and without a handler call, and the loop goes on; a chunk that does
    not hold it always decodes, character for byte. *)
Theorem undecodable_chunk json_loads (data : list byte) (c : QuikConnector) :
  (In x98 data ->
   process_chunk json_loads data c
   = (add_event (Log EXCEPTION (lit "Bad message packet %s") [ABytes data]) c,
      Ok tt)) /\
  (~ In x98 data ->
   exists text, cp1251_decode data = Some text /\ length text = length data).
Proof.
  split.
  - intro H. apply cp1251_decode_none in H.
    unfold process_chunk. rewrite H. reflexivity.
  - intro H. destruct (cp1251_decode data) as [t |] eqn:E.
    + exists t. split; [reflexivity | now apply cp1251_decode_length].
    + apply cp1251_decode_none in E. contradiction.
Qed.

Lemma byte_of_to_N n : (n < 256)%N -> Byte.to_N (byte_of n) = n.
Proof.
  intro H. unfold byte_of. rewrite N.mod_small by exact H.
  destruct (Byte.of_N n) as [b |] eqn:E.
  - now apply Byte.to_of_N.
  - apply Byte.of_N_None_iff in E. lia.
Qed.

Lemma ascii_char_codecs ch :
  (ch < 128)%N ->
  utf8_char ch = Some [byte_of ch] /\ cp1251_char (byte_of ch) = Some ch.
Proof.
  intro H. unfold utf8_char, cp1251_char.
  rewrite byte_of_to_N by lia.
  apply N.ltb_lt in H. rewrite H. auto.
Qed.

Lemma utf8_char_length ch bs :
  utf8_char ch = Some bs ->
  (1 <= length bs)%nat /\ ((128 <= ch)%N -> (2 <= length bs)%nat).
Proof.
  unfold utf8_char. intro H.
  destruct (ch <? 128)%N eqn:E1.
  - injection H as <-. apply N.ltb_lt in E1. cbn [length]. split; lia.
  - destruct (ch <? 2048)%N; [injection H as <-; cbn [length]; lia |].
    destruct ((ch <? 55296)%N || ((57343 <? ch)%N && (ch <? 65536)%N));
      [injection H as <-; cbn [length]; lia |].
    destruct ((65535 <? ch)%N && (ch <? 1114112)%N);
      [injection H as <-; cbn [length]; lia | discriminate].
Qed.

Lemma utf8_encode_cons ch s :
  utf8_encode (ch :: s)
  = match utf8_char ch, utf8_encode s with
    | Some b, Some bs => Some (b ++ bs)
    | _, _ => None
    end.
Proof. reflexivity. Qed.

Lemma utf8_encode_length s d :
  utf8_encode s = Some d ->
  (length s <= length d)%nat /\
  (Exists (fun ch => (128 <= ch)%N) s -> (length s < length d)%nat).
Proof.
  revert d. induction s as [| ch s IH]; intros d H;
    [change (utf8_encode []) with (@Some (list byte) []) in H
    | rewrite utf8_encode_cons in H].
  - injection H as <-. split; [cbn; lia |]. intro E. inversion E.
  - destruct (utf8_char ch) as [b |] eqn:Ec; [| discriminate H].
    destruct (utf8_encode s) as [bs |]; cbv iota beta in H;
      [| discriminate H].
    injection H as <-. rewrite length_app. cbn [length].
    destruct (utf8_char_length _ Ec) as [H1 H2].
    destruct (IH bs eq_refl) as [H3 H4].
    split; [lia |]. intro E. inversion E; subst.
    + specialize (H2 ltac:(assumption)). lia.
    + specialize (H4 ltac:(assumption)). lia.
Qed.

Lemma ascii_codecs s :
  Forall (fun ch => (ch < 128)%N) s ->
  utf8_encode s = Some (map byte_of s) /\
  cp1251_decode (map byte_of s) = Some s.
Proof.
  induction 1 as [| ch s Hc _ [IH1 IH2]].
  - split; reflexivity.
  - destruct (ascii_char_codecs Hc) as [E1 E2].
    rewrite utf8_encode_cons. cbn [map cp1251_decode].
    rewrite E1, IH1, E2, IH2. auto.
Qed.

(** X18.  The connector writes UTF-8 and reads code page 1251.  The two
    agree on ASCII and nowhere else: a text that the connector can
    write reads back as itself under the codec of the receive loop
    exactly when all its characters are below 128, and then it goes
    out one byte per character. *)
Theorem written_reads_back_iff_ascii (s : list N) (d : list byte) :
  utf8_encode s = Some d ->
  (cp1251_decode d = Some s <-> Forall (fun ch => (ch < 128)%N) s) /\
  (Forall (fun ch => (ch < 128)%N) s -> d = map byte_of s).
Proof.
  intro He.
  assert (Hascii : Forall (fun ch => (ch < 128)%N) s -> d = map byte_of s).
  { intro H. destruct (ascii_codecs H) as [E _]. congruence. }
  split; [| exact Hascii]. split.
  - intro Hd. apply cp1251_decode_length in Hd.
    destruct (utf8_encode_length _ He) as [_ Hlt].
    apply Forall_forall. intros ch Hin.
    destruct (N.ltb_spec ch 128) as [Hl | Hg]; [exact Hl |].
    exfalso. assert (length s < length d)%nat; [| lia].
    apply Hlt. apply Exists_exists. exists ch. auto.
  - intro H. rewrite (Hascii H). now apply ascii_codecs.
Qed.

(** ** Framing loses nothing *)

Lemma prefixb_skipn sep s :
  prefixb sep s = true -> s = sep ++ skipn (length sep) s.
Proof.
  intro E. apply prefixb_true in E. destruct E as [t ->].
  now rewrite skipn_length_app.
Qed.

Lemma partition_at_spec sep s b a :
  partition_at sep s = Some (b, a) -> s = b ++ sep ++ a.
Proof.
  revert b. induction s as [| ch s IH]; intros b H.
  - cbn [partition_at] in H.
    destruct (prefixb sep []) eqn:E; [| discriminate].
    injection H as <- <-. now apply prefixb_skipn.
  - cbn [partition_at] in H.
    destruct (prefixb sep (ch :: s)) eqn:E.
    + injection H as <- <-. now apply prefixb_skipn.
    + destruct (partition_at sep s) as [[b' a'] |]; [| discriminate].
      injection H as <- <-. cbn [app]. f_equal. now apply IH.
Qed.

Lemma split_fuel_nonempty n sep s : split_fuel n sep s <> [].
Proof.
  destruct n; cbn [split_fuel]; [discriminate |].
  destruct (partition_at sep s) as [[b a] |]; discriminate.
Qed.

Lemma join_split_fuel n sep s : join sep (split_fuel n sep s) = s.
Proof.
  revert s. induction n as [| n IH]; intro s; cbn [split_fuel].
  - reflexivity.
  - destruct (partition_at sep s) as [[b a] |] eqn:E; [| reflexivity].
    pose proof (split_fuel_nonempty n sep a) as Hne.
    specialize (IH a).
    destruct (split_fuel n sep a) as [| x rest]; [congruence |].
    change (join sep (b :: x :: rest)) with (b ++ sep ++ join sep (x :: rest)).
    rewrite IH. symmetry. now apply partition_at_spec.
Qed.

(** X19.  Splitting a text on the delimiter loses nothing but the
    delimiters: joining the fragments with the delimiter gives the text
    back, for every text; and there is always at least one fragment, so
    an empty read yields the one empty fragment that the loop skips. *)
Theorem join_split (s : list N) :
  join _MSG_DELIMITER (split _MSG_DELIMITER s) = s /\
  split _MSG_DELIMITER s <> [] /\
  split _MSG_DELIMITER [] = [[]].
Proof.
  split; [apply join_split_fuel |].
  split; [apply split_fuel_nonempty | reflexivity].
Qed.

(** ** A refused connection *)

(** X20.  When the peer refuses the connection, [run] raises at once:
    no chunk is read and nothing is written, the status stays
    CONNECTING, and the object holds the socket that never connected,
    so that a later [_send_order] fails with OSError. *)
Theorem run_refused json_loads (chunks : list (list byte))
  (c : QuikConnector) (a b : list N) (q : Z) :
  let c' := fst (run json_loads false chunks c) in
  snd (run json_loads false chunks c) = Raise ConnectionRefusedError /\
  status c' = CONNECTING /\
  _sock c' = Some (mkSocket false false []) /\
  (utf8_encode (order_msg (_account c') (_last_trans_id c' + 1)%Z a b q)
     <> None ->
   snd (_send_order a b q c') = Raise OSError).
Proof.
  cbv zeta. rewrite run_parts_match.
  change (_connect_sock false c)
    with (set_sock (Some (mkSocket false false []))
            (add_event (Log INFO (lit "Connecting to " ++ _host c ++ lit ":"
                                    ++ str_of_Z (_port c)) [])
               (set_status CONNECTING c)),
          @Raise unit ConnectionRefusedError).
  cbn [fst snd]. repeat split.
  intro He. rewrite send_order_unfold. cbv zeta.
  unfold bind at 1. unfold send_text at 1. unfold bind, gets, raise.
  cbn [_sock set_sock add_event set_last_trans_id fst snd].
  destruct (utf8_encode _); [reflexivity | congruence].
Qed.

(** ** A tick without a price *)

(** X21.  [_on_all_trade] reads the price and the quantity only after
    it has found a callback.  An event that lacks one of them is
    therefore dropped without a word when nobody subscribed to its
    instrument, and raises KeyError, after the debug line and without
    calling the callback, when somebody did. *)
Theorem tick_without_price (c : QuikConnector) (msg r cc sc : json)
  (f : callback) :
  getitem msg (lit "callback_name") = Ok (JStr (lit "OnAllTrade")) ->
  getitem msg (lit "result") = Ok r ->
  getitem r (lit "class_code") = Ok cc ->
  getitem r (lit "sec_code") = Ok sc ->
  getitem r (lit "price") = Raise KeyError ->
  (feed_get cc sc (_feed_callbacks c) = Ok None ->
   _on_all_trade msg c = (c, Ok tt)) /\
  (feed_get cc sc (_feed_callbacks c) = Ok (Some f) ->
   _on_all_trade msg c
   = (add_event
        (Log DEBUG (lit "Feed callback found for class_code=%s, sec_code=%s")
             [AJson cc; AJson sc]) c,
      Raise KeyError)).
Proof.
  intros Hn Hr Hc Hs Hp.
  assert (Hname : is_str (JStr (lit "OnAllTrade")) (lit "OnAllTrade") = true)
    by reflexivity.
  split; intro Hf; unfold _on_all_trade, bind, lift, gets;
    rewrite Hn, Hname; cbn [negb]; rewrite Hr, Hc, Hs, Hf.
  - reflexivity.
  - unfold log, modify. cbn iota beta. rewrite Hp. reflexivity.
Qed.

(* ================================================================== *)
(** * The further properties on concrete objects *)

(** An object whose connection is up and authenticated, with one
    subscriber. *)
Definition online : QuikConnector :=
  {| _host := lit "192.168.1.104"; _port := 1111; _passwd := lit "1";
     _sock := Some (mkSocket true false []);
     _account := lit "SPBFUT00998"; _last_trans_id := 0;
     status := CONNECTED;
     _feed_callbacks := [((lit "SPBFUT", lit "RIU8"), 7%nat)];
     trace := [] |}.

(** The response [{"id": "msg_create_ds_SPBFUT_RIU8", "result": [1]}]
    and the fragment [5]. *)
Definition ds_reply_text : list N :=
  tmpl "{`id`: `msg_create_ds_SPBFUT_RIU8`, `result`: [1]}".
Definition ds_reply_msg : json :=
  JObj [(lit "id", JStr (lit "msg_create_ds_SPBFUT_RIU8"));
        (lit "result", JArr [JInt 1])].

Definition replies_loads : list N -> loads_outcome :=
  loads_table [(ds_reply_text, ds_reply_msg); (lit "5", JInt 5)].

Definition trans_reply_event : json :=
  JObj [(lit "id", JStr (lit "callback"));
        (lit "callback_name", JStr (lit "OnTransReply"));
        (lit "result", JObj [(lit "result_msg", JStr (lit "done"))])].

Definition tick_without_price_msg : json :=
  JObj [(lit "id", JStr (lit "callback"));
        (lit "callback_name", JStr (lit "OnAllTrade"));
        (lit "result", JObj [(lit "class_code", JStr (lit "SPBFUT"));
                             (lit "sec_code", JStr (lit "RIU8"));
                             (lit "qty", JInt 2)])].

Lemma subscribe_writes_when_connected_witness :
  subscribe (lit "SPBFUT") (lit "RIU8") 7%nat fresh
  = (set_feed_callbacks
       (dict_set (lit "SPBFUT", lit "RIU8") 7%nat (_feed_callbacks fresh))
       fresh, Ok tt)
  /\ snd (subscribe (lit "SPBFUT") (lit "SiU8") 8%nat online) = Ok tt
  /\ _sock (fst (subscribe (lit "SPBFUT") (lit "SiU8") 8%nat online))
     = Some (mkSocket true false
               ([] ++ [ascii_bytes
                         (create_datasource_msg (lit "SPBFUT") (lit "SiU8"))])).
Proof.
  split.
  - apply (proj1 (@subscribe_writes_when_connected
                    (lit "SPBFUT") (lit "RIU8") 7%nat fresh)).
    discriminate.
  - apply (proj2 (@subscribe_writes_when_connected
                    (lit "SPBFUT") (lit "SiU8") 8%nat online) []
             (ascii_bytes (create_datasource_msg (lit "SPBFUT") (lit "SiU8"))));
      reflexivity.
Defined.

Lemma run_writes_witness :
  sock_sent (fst (run demo_loads true
                    [ascii_bytes (_MSG_DELIMITER ++ auth_ok_text)] subscribed))
  = ascii_bytes (auth_msg (lit "1"))
    :: [ascii_bytes (create_datasource_msg (lit "SPBFUT") (lit "RIU8"))].
Proof.
  apply (@run_writes demo_loads
           [ascii_bytes (_MSG_DELIMITER ++ auth_ok_text)] subscribed
           (ascii_bytes (auth_msg (lit "1")))
           [ascii_bytes (create_datasource_msg (lit "SPBFUT") (lit "RIU8"))]).
  - reflexivity.
  - repeat constructor.
Defined.

Lemma send_orders_numbered_witness :
  exists c',
    for_each [(lit "SPBFUT", lit "RIU8", 1%Z); (lit "SPBFUT", lit "SiU8", 3%Z)]
             (fun '(a, b, q) => _send_order a b q) online
    = (c', Ok tt)
    /\ _sock c'
       = Some (mkSocket true false
            ([] ++
             [ascii_bytes (order_msg (lit "SPBFUT00998") 1
                             (lit "SPBFUT") (lit "RIU8") 1);
              ascii_bytes (trans_reply_msg 1);
              ascii_bytes (order_msg (lit "SPBFUT00998") 2
                             (lit "SPBFUT") (lit "SiU8") 3);
              ascii_bytes (trans_reply_msg 2)]))
    /\ _last_trans_id c' = (_last_trans_id online + Z.of_nat 2)%Z.
Proof.
  apply (@send_orders_numbered
           [(lit "SPBFUT", lit "RIU8", 1%Z); (lit "SPBFUT", lit "SiU8", 3%Z)]
           online []).
  - reflexivity.
  - apply order_bytes_cons; [reflexivity | reflexivity |].
    apply order_bytes_cons; [reflexivity | reflexivity |].
    apply order_bytes_nil.
Defined.

Lemma unknown_id_dropped_witness :
  process_item replies_loads ds_reply_text ds_reply_text online
  = (online, Ok tt).
Proof.
  apply (@unknown_id_dropped replies_loads ds_reply_text ds_reply_text
           ds_reply_msg (JStr (lit "msg_create_ds_SPBFUT_RIU8")) online);
    try reflexivity; discriminate.
Defined.

Lemma unknown_callback_dropped_witness :
  _callback (JObj [(lit "callback_name", JStr (lit "OnQuote"))]) online
  = (online, Ok tt).
Proof.
  apply (@unknown_callback_dropped
           (JObj [(lit "callback_name", JStr (lit "OnQuote"))])
           (JStr (lit "OnQuote")) online);
    try reflexivity; discriminate.
Defined.

Lemma message_without_id_escapes_witness :
  exists e,
    (e = TypeError \/ e = KeyError) /\
    getitem (JInt 5) (lit "id") = Raise e /\
    for_each (lit "5" :: [ds_reply_text])
             (process_item replies_loads (lit "5")) online
    = (online, Raise e).
Proof.
  apply (@message_without_id_escapes replies_loads (lit "5") (lit "5")
           [ds_reply_text] (JInt 5) online).
  - discriminate.
  - reflexivity.
  - intros v H. discriminate H.
Defined.

Lemma on_trans_reply_shapes_witness :
  _on_trans_reply trans_reply_event online
  = (add_event (Log INFO (lit "%s") [AJson (JStr (lit "done"))]) online,
     Ok tt).
Proof.
  apply (@on_trans_reply_shapes trans_reply_event
           (JObj [(lit "result_msg", JStr (lit "done"))]) online).
  reflexivity.
Defined.

Lemma on_create_datasource_first_witness :
  _on_create_datasource
    (JObj [(lit "result", JStr (lit "no such class"))]) online
  = (add_event (Log INFO (lit "Created datasource id: %s")
                    [AJson (JStr (lit "n"))]) online,
     Ok tt).
Proof.
  refine (proj1 (proj2
            (@on_create_datasource_first
               (JObj [(lit "result", JStr (lit "no such class"))])
               (JStr (lit "no such class")) online eq_refl))
            110%N (lit "o such class") eq_refl).
Defined.

Lemma written_reads_back_iff_ascii_witness :
  (cp1251_decode [xd1; x8f] = Some [1103%N]
   <-> Forall (fun ch => (ch < 128)%N) [1103%N]) /\
  (Forall (fun ch => (ch < 128)%N) [1103%N] ->
   [xd1; x8f] = map byte_of [1103%N]).
Proof.
  apply (@written_reads_back_iff_ascii [1103%N] [xd1; x8f]). reflexivity.
Defined.

Lemma tick_without_price_witness :
  (feed_get (JStr (lit "SPBFUT")) (JStr (lit "RIU8")) (_feed_callbacks online)
   = Ok None ->
   _on_all_trade tick_without_price_msg online = (online, Ok tt)) /\
  (feed_get (JStr (lit "SPBFUT")) (JStr (lit "RIU8")) (_feed_callbacks online)
   = Ok (Some 7%nat) ->
   _on_all_trade tick_without_price_msg online
   = (add_event
        (Log DEBUG (lit "Feed callback found for class_code=%s, sec_code=%s")
             [AJson (JStr (lit "SPBFUT")); AJson (JStr (lit "RIU8"))]) online,
      Raise KeyError)).
Proof.
  apply (@tick_without_price online tick_without_price_msg
           (JObj [(lit "class_code", JStr (lit "SPBFUT"));
                  (lit "sec_code", JStr (lit "RIU8"));
                  (lit "qty", JInt 2)])
           (JStr (lit "SPBFUT")) (JStr (lit "RIU8")) 7%nat);
    reflexivity.
Defined.

(* ================================================================== *)
(** * Fragments that do not decode *)








(* ================================================================== *)
(** * Tick events *)

Lemma dict_get_In {V} k (v : V) d :
  NoDup (map fst d) -> In (k, v) d -> dict_get k d = Some v.
Proof.
  induction d as [| [k0 v0] d IH]; intros Hnd Hin; [destruct Hin |].
  cbn [map fst] in Hnd. inversion Hnd as [| ? ? Hk0 Hnd']; subst.
  cbn [dict_get]. destruct (key_eqb k k0) eqn:E.
  - apply key_eqb_eq in E. subst k0. destruct Hin as [Heq | Hin].
    + congruence.
    + exfalso. apply Hk0. apply (in_map fst) in Hin. exact Hin.
  - destruct Hin as [Heq | Hin].
    + injection Heq as -> ->. rewrite key_eqb_refl in E. discriminate.
    + now apply IH.
Qed.

Lemma dict_get_not_In {V} k (d : list ((list N * list N) * V)) :
  ~ In k (map fst d) -> dict_get k d = None.
Proof.
  induction d as [| [k0 v0] d IH]; intro Hn; [reflexivity |].
  cbn [dict_get]. destruct (key_eqb k k0) eqn:E.
  - apply key_eqb_eq in E. subst. exfalso. apply Hn. now left.
  - apply IH. intro H. apply Hn. now right.
Qed.

Lemma subscribe_registry n k f c :
  _feed_callbacks (fst (subscribe n k f c))
  = dict_set (n, k) f (_feed_callbacks c).
Proof.
  rewrite subscribe_unfold.
  destruct (Status_eqb (status c) CONNECTED); [| reflexivity].
  now rewrite create_datasource_registry.
Qed.

Lemma on_all_trade_found c msg r cc sc f price qty :
  getitem msg (lit "callback_name") = Ok (JStr (lit "OnAllTrade")) ->
  getitem msg (lit "result") = Ok r ->
  getitem r (lit "class_code") = Ok cc ->
  getitem r (lit "sec_code") = Ok sc ->
  feed_get cc sc (_feed_callbacks c) = Ok (Some f) ->
  getitem r (lit "price") = Ok price ->
  getitem r (lit "qty") = Ok qty ->
  _on_all_trade msg c
  = (add_event (FeedCall (status c) f cc sc price qty)
       (add_event
          (Log DEBUG (lit "Feed callback found for class_code=%s, sec_code=%s")
               [AJson cc; AJson sc]) c),
     Ok tt).
Proof.
  intros Hn Hr Hc Hs Ho Hp Hq.
  assert (Hname : is_str (JStr (lit "OnAllTrade")) (lit "OnAllTrade") = true)
    by reflexivity.
  unfold _on_all_trade, bind, lift, gets. rewrite Hn, Hname. cbn [negb].
  rewrite Hr, Hc, Hs, Ho. unfold log, modify. cbn iota beta.
  rewrite Hp, Hq. reflexivity.
Qed.

Lemma on_all_trade_not_found c msg r cc sc :
  getitem msg (lit "callback_name") = Ok (JStr (lit "OnAllTrade")) ->
  getitem msg (lit "result") = Ok r ->
  getitem r (lit "class_code") = Ok cc ->
  getitem r (lit "sec_code") = Ok sc ->
  feed_get cc sc (_feed_callbacks c) = Ok None ->
  _on_all_trade msg c = (c, Ok tt).
Proof.
  intros Hn Hr Hc Hs Ho.
  assert (Hname : is_str (JStr (lit "OnAllTrade")) (lit "OnAllTrade") = true)
    by reflexivity.
  unfold _on_all_trade, bind, lift, gets. rewrite Hn, Hname. cbn [negb].
  rewrite Hr, Hc, Hs, Ho. reflexivity.
Qed.

(** C6 (as amended).  For a dispatched OnAllTrade event whose result
    carries a class code and a security code that can be dictionary
    keys, [_callback] hands the event to [_on_all_trade], which looks
    the pair up in the registry.  When a callback is registered under
    exactly that pair and the result carries a price and a quantity,
    that callback and no other is called, once, with the class code, the
    security code, the price and the quantity.  When no callback is
    registered under that pair, whatever else is registered, nothing is
    called, nothing is raised and the object is left as it was.
    Registration is what [subscribe] does: after [subscribe x y f] a
    tick for (x, y) calls [f], and a tick for a pair that was not
    registered before is still dropped when [subscribe] was called for
    another pair. *)
Theorem on_all_trade_dispatch (c : QuikConnector) (msg r cc sc : json) :
  getitem msg (lit "callback_name") = Ok (JStr (lit "OnAllTrade")) ->
  getitem msg (lit "result") = Ok r ->
  getitem r (lit "class_code") = Ok cc ->
  getitem r (lit "sec_code") = Ok sc ->
  hashable cc = true -> hashable sc = true ->
  NoDup (map fst (_feed_callbacks c)) ->
  let found f price qty c' :=
    (add_event (FeedCall (status c') f cc sc price qty)
       (add_event
          (Log DEBUG (lit "Feed callback found for class_code=%s, sec_code=%s")
               [AJson cc; AJson sc]) c'),
     Ok tt) in
  (forall c', _callback msg c' = _on_all_trade msg c') /\
  (forall x y f price qty,
      cc = JStr x -> sc = JStr y ->
      In ((x, y), f) (_feed_callbacks c) ->
      getitem r (lit "price") = Ok price ->
      getitem r (lit "qty") = Ok qty ->
      _on_all_trade msg c = found f price qty c) /\
  ((forall x y, cc = JStr x -> sc = JStr y ->
                ~ In (x, y) (map fst (_feed_callbacks c))) ->
   _on_all_trade msg c = (c, Ok tt)) /\
  (forall x y f price qty,
      cc = JStr x -> sc = JStr y ->
      getitem r (lit "price") = Ok price ->
      getitem r (lit "qty") = Ok qty ->
      _on_all_trade msg (fst (subscribe x y f c))
      = found f price qty (fst (subscribe x y f c))) /\
  (forall x y x' y' f,
      cc = JStr x -> sc = JStr y ->
      (x', y') <> (x, y) ->
      ~ In (x, y) (map fst (_feed_callbacks c)) ->
      _on_all_trade msg (fst (subscribe x' y' f c))
      = (fst (subscribe x' y' f c), Ok tt)).
Proof.
  intros Hn Hr Hc Hs Hhc Hhs Hnd found.
  assert (Hfg : forall x y reg,
             cc = JStr x -> sc = JStr y ->
             feed_get cc sc reg = Ok (dict_get (x, y) reg)).
  { intros x y reg -> ->. reflexivity. }
  split.
  { intro c'. unfold _callback, bind, lift. rewrite Hn. reflexivity. }
  split.
  { intros x y f price qty Hx Hy Hin Hp Hq.
    apply on_all_trade_found with (r := r); auto.
    rewrite (Hfg x y _ Hx Hy). f_equal. now apply dict_get_In. }
  split.
  { intro Hno. apply on_all_trade_not_found with (r := r) (cc := cc) (sc := sc);
      auto.
    unfold feed_get. rewrite Hhc, Hhs. cbn [andb].
    destruct cc; try reflexivity; destruct sc; try reflexivity.
    f_equal. apply dict_get_not_In. now apply Hno. }
  split.
  { intros x y f price qty Hx Hy Hp Hq.
    apply on_all_trade_found with (r := r); auto.
    rewrite (Hfg x y _ Hx Hy), subscribe_registry. f_equal.
    apply dict_get_set_same. }
  intros x y x' y' f Hx Hy Hne Hno.
  apply on_all_trade_not_found with (r := r) (cc := cc) (sc := sc); auto.
  rewrite (Hfg x y _ Hx Hy), subscribe_registry. f_equal.
  rewrite dict_get_set_other by congruence. now apply dict_get_not_In.
Qed.

(** The tick of the concrete messages with a list for its class code:
    [{"id": "callback", "callback_name": "OnAllTrade", "result":
    {"class_code": ["SPBFUT"], "sec_code": "RIU8", "price": 100.5,
    "qty": 2}}]. *)
Definition tick_list_code_msg : json :=
  JObj [(lit "id", JStr (lit "callback"));
        (lit "callback_name", JStr (lit "OnAllTrade"));
        (lit "result",
         JObj [(lit "class_code", JArr [JStr (lit "SPBFUT")]);
               (lit "sec_code", JStr (lit "RIU8"));
               (lit "price", JFloat 100.5%float);
               (lit "qty", JInt 2)])].

(** C6 as stated fails.  That event is an OnAllTrade push event with all
    four fields, no callback is registered on the fresh object, under
    that pair or any other, and yet the handler raises: a list cannot be
    part of a dictionary key, so the lookup itself is a TypeError. *)
Lemma on_all_trade_unhashable_code :
  _feed_callbacks fresh = [] /\
  getitem tick_list_code_msg (lit "callback_name")
  = Ok (JStr (lit "OnAllTrade")) /\
  _callback tick_list_code_msg fresh = (fresh, Raise TypeError).
Proof. repeat split. Qed.

Lemma on_all_trade_dispatch_witness :
  _on_all_trade tick_msg subscribed
  = (add_event (FeedCall DISCONNECTED 7%nat (JStr (lit "SPBFUT"))
                  (JStr (lit "RIU8")) (JFloat 100.5%float) (JInt 2))
       (add_event
          (Log DEBUG
             (lit "Feed callback found for class_code=%s, sec_code=%s")
             [AJson (JStr (lit "SPBFUT")); AJson (JStr (lit "RIU8"))])
          subscribed),
     Ok tt).
Proof.
  assert (Hnd : NoDup (map fst (_feed_callbacks fresh))) by constructor.
  exact (proj1 (proj2 (proj2 (proj2
           (@on_all_trade_dispatch fresh tick_msg tick_result
              (JStr (lit "SPBFUT")) (JStr (lit "RIU8"))
              eq_refl eq_refl eq_refl eq_refl eq_refl eq_refl Hnd))))
           (lit "SPBFUT") (lit "RIU8") 7%nat (JFloat 100.5%float) (JInt 2)
           eq_refl eq_refl eq_refl eq_refl).
Defined.
